(** * Smart-account SDK ([src/sdk.ts]): transaction composition

    A shallow embedding of the [SmartAccountSDK] class.  The class is a thin
    layer over four libraries, whose calls are embedded here by what they do
    on the paths the class takes:

    - the JavaScript runtime: [number] values (IEEE binary64), [BigInt],
      and Node's [Buffer] writers;
    - [bn.js] (re-exported as [anchor.BN]): the constructor from a
      [number], and [toString];
    - [@solana/web3.js]: [PublicKey.findProgramAddressSync],
      [Transaction], [TransactionInstruction];
    - [@coral-xyz/anchor]: the provider registry and the method builder
      [program.methods.f(args).accounts(o).remainingAccounts(l).transaction()].

    The hash function, the curve test, the well-known program identifiers
    and the IDL document are not part of [src/sdk.ts]; they are parameters
    of the development. *)

From Stdlib Require Import ZArith String Ascii List Lia SpecFloat.
From stdpp Require Import base option list strings gmap.

Local Open Scope Z_scope.

(** ** Exceptions and results *)

Inductive Error : Type :=
  | AssertionFailed     (* bn.js: [assert (number < 0x20000000000000)] *)
  | ERR_OUT_OF_RANGE    (* Buffer: value or offset out of range (RangeError) *)
  | SyntaxError         (* BigInt: the string is not an integer literal *)
  | TypeError           (* seed too long; call of a method the IDL lacks *)
  | InvalidSeeds        (* "Invalid seeds, address must fall off the curve" *)
  | NoViableNonce       (* "Unable to find a viable program address nonce" *)
  | AccountNotProvided  (* anchor: "Invalid arguments: x not provided" *)
  | AccountDoesNotExist (* anchor: fetch of an account the chain lacks *).

Inductive Result (A : Type) : Type :=
  | Ok (a : A)
  | Throw (e : Error).
Arguments Ok {A} a.
Arguments Throw {A} e.

Definition rbind {A B} (r : Result A) (k : A -> Result B) : Result B :=
  match r with
  | Ok a => k a
  | Throw e => Throw e
  end.

Definition is_Ok {A} (r : Result A) : bool :=
  match r with Ok _ => true | Throw _ => false end.

Module JS.

(** ** JavaScript numbers

    A [number] is an IEEE binary64 value: [spec_float] with precision 53
    and maximal exponent 1024.  [S754_finite s m e] is [(-1)^s * m * 2^e]. *)

Abbreviation number := spec_float.

Definition is_binary64 (x : number) : bool := valid_binary 53 1024 x.

(** The exact value of a finite number as a fraction [n / 2^k]. *)
Definition dyadic (x : number) : option (Z * Z) :=
  match x with
  | S754_zero _ => Some (0, 0)
  | S754_finite s m e =>
      let n := if s then Z.neg m else Z.pos m in
      if 0 <=? e then Some (n * 2 ^ e, 0) else Some (n, - e)
  | S754_infinity _ | S754_nan => None
  end.

(** The integer a number is equal to, when it is equal to one. *)
Definition to_integer (x : number) : option Z :=
  match dyadic x with
  | Some (n, k) => if n mod 2 ^ k =? 0 then Some (n / 2 ^ k) else None
  | None => None
  end.

(** [x < c] for an integer literal [c]; comparisons with NaN are false. *)
Definition lt_lit (x : number) (c : Z) : bool :=
  match x with
  | S754_nan => false
  | S754_infinity s => s
  | _ => match dyadic x with
         | Some (n, k) => n <? c * 2 ^ k
         | None => false
         end
  end.

(** Unary minus. *)
Definition neg (x : number) : number := SFopp x.

(** [x / 2^j] for a power-of-two literal.  The quotient of a binary64
    number of magnitude at least [2^j] by [2^j] is exact, which is the only
    range where bn.js divides; the exact quotient is returned as a fraction
    (infinities and NaN divide to themselves). *)
Definition div_pow2_exact (x : number) (j : Z) : option (Z * Z) :=
  match dyadic x with
  | Some (n, k) => Some (n, k + j)
  | None => None
  end.

(** ToInt32 of a fraction: truncate toward zero, then wrap to 32 bits
    (two's complement).  NaN and the infinities convert to 0. *)
Definition wrap_int32 (t : Z) : Z := (t + 2 ^ 31) mod 2 ^ 32 - 2 ^ 31.

Definition ToInt32 (q : option (Z * Z)) : Z :=
  match q with
  | Some (n, k) => wrap_int32 (Z.quot n (2 ^ k))
  | None => 0
  end.

(** [x & mask], for a non-negative literal mask. *)
Definition band (q : option (Z * Z)) (mask : Z) : Z := Z.land (ToInt32 q) mask.

(** ToBoolean: [0], [-0] and [NaN] are falsy. *)
Definition truthy (x : number) : bool :=
  match x with
  | S754_zero _ | S754_nan => false
  | _ => true
  end.

(** The number nearest to an integer (used to write literals). *)
Definition of_Z (z : Z) : number :=
  match z with
  | Z0 => S754_zero false
  | Zpos p => binary_normalize 53 1024 (Zpos p) 0 false
  | Zneg p => SFopp (binary_normalize 53 1024 (Zpos p) 0 false)
  end.

(** ** Decimal strings and [BigInt(string)] *)

Definition digit_char (d : Z) : ascii :=
  match d with
  | 1 => "1" | 2 => "2" | 3 => "3" | 4 => "4" | 5 => "5"
  | 6 => "6" | 7 => "7" | 8 => "8" | 9 => "9" | _ => "0"
  end%char.

Definition digit_of_char (c : ascii) : option Z :=
  let n := Z.of_N (N_of_ascii c) in
  if (48 <=? n) && (n <=? 57) then Some (n - 48) else None.

(** Decimal digits of a non-negative integer, most significant first,
    prepended to [acc]. *)
Fixpoint digits_onto (fuel : nat) (n : Z) (acc : string) : string :=
  match fuel with
  | O => acc
  | S fuel' =>
      let acc' := String (digit_char (n mod 10)) acc in
      if n <? 10 then acc' else digits_onto fuel' (n / 10) acc'
  end.

Definition decimal (n : Z) : string :=
  digits_onto (S (Z.to_nat (Z.log2 n))) n EmptyString.

Fixpoint parse_digits (s : string) (acc : Z) : option Z :=
  match s with
  | EmptyString => Some acc
  | String c rest =>
      match digit_of_char c with
      | Some d => parse_digits rest (10 * acc + d)
      | None => None
      end
  end.

(** [BigInt(s)] on decimal literals: an optional minus sign, then digits
    (the empty string is [0n]).  Other literals do not arise from
    [BN.toString]; they are rejected here. *)
Definition BigInt (s : string) : Result Z :=
  match s with
  | String "-"%char rest =>
      match rest, parse_digits rest 0 with
      | String _ _, Some v => Ok (- v)
      | _, _ => Throw SyntaxError
      end
  | _ =>
      match parse_digits s 0 with
      | Some v => Ok v
      | None => Throw SyntaxError
      end
  end.

End JS.

(** ** bn.js: arbitrary-precision integers ([anchor.BN])

    A [BN] is a sign flag and an array of 26-bit limbs, least significant
    first. *)

Module BN.

Record t : Type := mk { negative : bool; words : list Z }.

Definition magnitude (b : t) : Z :=
  foldr (fun w acc => w + 2 ^ 26 * acc) 0 (words b).

Definition value (b : t) : Z :=
  if negative b then - magnitude b else magnitude b.

(** Every limb is a 26-bit word. *)
Definition wf (b : t) : bool :=
  forallb (fun w => (0 <=? w) && (w <? 2 ^ 26)) (words b).

(** [BN.prototype._initNumber]:
<<
    if (number < 0) { this.negative = 1; number = -number; }
    if (number < 0x4000000) {
      this.words = [number & 0x3ffffff];
    } else if (number < 0x10000000000000) {
      this.words = [number & 0x3ffffff, (number / 0x4000000) & 0x3ffffff];
    } else {
      assert(number < 0x20000000000000); // 2 ^ 53 (unsafe)
      this.words = [number & 0x3ffffff, (number / 0x4000000) & 0x3ffffff, 1];
    }
>> *)
Definition _initNumber (number : JS.number) : Result t :=
  let negative := JS.lt_lit number 0 in
  let number := if negative then JS.neg number else number in
  let w0 := JS.band (JS.dyadic number) 0x3ffffff in
  let w1 := JS.band (JS.div_pow2_exact number 26) 0x3ffffff in
  if JS.lt_lit number 0x4000000 then Ok (mk negative [w0])
  else if JS.lt_lit number 0x10000000000000 then Ok (mk negative [w0; w1])
  else if JS.lt_lit number 0x20000000000000 then Ok (mk negative [w0; w1; 1])
  else Throw AssertionFailed.

(** [new BN(number)] for a [number] argument: [this._init(number || 0, 10, 'be')]. *)
Definition of_number (number : JS.number) : Result t :=
  _initNumber (if JS.truthy number then number else S754_zero false).

(** [toString()] in base 10: the decimal digits of the magnitude, with a
    leading minus sign when the sign flag is set. *)
Definition toString (b : t) : string :=
  let out := JS.decimal (magnitude b) in
  if negative b then String "-"%char out else out.

(** The limbs of a non-negative integer, and the [BN] of an integer (what
    [new BN(decimalString)] builds). *)
Fixpoint limbs (fuel : nat) (n : Z) : list Z :=
  match fuel with
  | O => []
  | S fuel' =>
      if n <? 2 ^ 26 then [n] else n mod 2 ^ 26 :: limbs fuel' (n / 2 ^ 26)
  end.

Definition of_Z (z : Z) : t :=
  mk (z <? 0) (limbs (S (Z.to_nat (Z.log2 (Z.abs z)))) (Z.abs z)).

End BN.

(** ** Node's [Buffer] *)

Module Buffer.

Abbreviation t := (list Z).

(** [Buffer.alloc(n)]: zero-filled. *)
Definition alloc (n : nat) : t := replicate n 0.

(** [Buffer.from(string)], for ASCII strings. *)
Definition from_string (s : string) : t :=
  map (fun c => Z.of_N (N_of_ascii c)) (list_ascii_of_string s).

(** [buf[i] = v]: the element store of a [Uint8Array] keeps [v] modulo 256. *)
Definition store (buf : t) (i : nat) (v : Z) : t := <[i := v mod 256]> buf.

(** [buf[offset] === undefined || buf[offset + byteLength] === undefined] *)
Definition out_of_bounds (buf : t) (offset byteLength : nat) : bool :=
  negb (offset + byteLength <? length buf)%nat.

(** [writeUInt8(value, offset)] *)
Definition writeUInt8 (buf : t) (value : Z) (offset : nat) : Result t :=
  if (255 <? value) || (value <? 0) then Throw ERR_OUT_OF_RANGE
  else if out_of_bounds buf offset 0 then Throw ERR_OUT_OF_RANGE
  else Ok (store buf offset value).

(** [writeUInt32LE(value, offset)]:
<<
    checkInt(value, 0, 0xffffffff, buf, offset, 3);
    buf[offset++] = value; value = value >>> 8;
    buf[offset++] = value; value = value >>> 8;
    buf[offset++] = value; value = value >>> 8;
    buf[offset++] = value;
>> *)
Definition writeUInt32LE (buf : t) (value : Z) (offset : nat) : Result t :=
  if (0xffffffff <? value) || (value <? 0) then Throw ERR_OUT_OF_RANGE
  else if out_of_bounds buf offset 3 then Throw ERR_OUT_OF_RANGE
  else
    let buf := store buf offset value in
    let value := Z.shiftr value 8 in
    let buf := store buf (offset + 1) value in
    let value := Z.shiftr value 8 in
    let buf := store buf (offset + 2) value in
    let value := Z.shiftr value 8 in
    Ok (store buf (offset + 3) value).

(** [writeBigUInt64LE(value, offset)]:
<<
    checkInt(value, 0n, 0xffffffffffffffffn, buf, offset, 7);
    let lo = Number(value & 0xffffffffn);
    buf[offset++] = lo; lo = lo >> 8;
    buf[offset++] = lo; lo = lo >> 8;
    buf[offset++] = lo; lo = lo >> 8;
    buf[offset++] = lo;
    let hi = Number(value >> 32n & 0xffffffffn);
    buf[offset++] = hi; hi = hi >> 8;
    buf[offset++] = hi; hi = hi >> 8;
    buf[offset++] = hi; hi = hi >> 8;
    buf[offset++] = hi;
>> *)
Definition writeBigUInt64LE (buf : t) (value : Z) (offset : nat) : Result t :=
  if (0xffffffffffffffff <? value) || (value <? 0) then Throw ERR_OUT_OF_RANGE
  else if out_of_bounds buf offset 7 then Throw ERR_OUT_OF_RANGE
  else
    let lo := Z.land value 0xffffffff in
    let buf := store buf offset lo in
    let lo := Z.shiftr lo 8 in
    let buf := store buf (offset + 1) lo in
    let lo := Z.shiftr lo 8 in
    let buf := store buf (offset + 2) lo in
    let lo := Z.shiftr lo 8 in
    let buf := store buf (offset + 3) lo in
    let hi := Z.land (Z.shiftr value 32) 0xffffffff in
    let buf := store buf (offset + 4) hi in
    let hi := Z.shiftr hi 8 in
    let buf := store buf (offset + 5) hi in
    let hi := Z.shiftr hi 8 in
    let buf := store buf (offset + 6) hi in
    let hi := Z.shiftr hi 8 in
    Ok (store buf (offset + 7) hi).

(** The [n] little-endian bytes of [v], and the value of a little-endian
    byte sequence. *)
Fixpoint le_bytes (n : nat) (v : Z) : t :=
  match n with
  | O => []
  | S n' => v mod 256 :: le_bytes n' (v / 256)
  end.

Fixpoint le_value (bs : t) : Z :=
  match bs with
  | [] => 0
  | b :: bs' => b + 256 * le_value bs'
  end.

End Buffer.

Notation "x <- r ;; k" := (rbind r (fun x => k))
  (at level 100, r at next level, right associativity, only parsing).

(** ** @solana/web3.js *)

(** A public key is its 32 bytes ([toBuffer()]). *)
Abbreviation PublicKey := (list Z).

Record AccountMeta : Type := mkMeta {
  pubkey : PublicKey;
  isSigner : bool;
  isWritable : bool
}.

Record TransactionInstruction : Type := mkInstruction {
  keys : list AccountMeta;
  programId : PublicKey;
  data : Buffer.t
}.

Record Transaction : Type := mkTransaction {
  feePayer : option PublicKey;
  recentBlockhash : option string;
  instructions : list TransactionInstruction
}.

(** [new Transaction()] and [tx.add(ix)]. *)
Definition Transaction_new : Transaction :=
  {| feePayer := None; recentBlockhash := None; instructions := [] |}.

Definition Transaction_add (tx : Transaction) (ix : TransactionInstruction) : Transaction :=
  {| feePayer := feePayer tx;
     recentBlockhash := recentBlockhash tx;
     instructions := instructions tx ++ [ix] |}.

(** ** @coral-xyz/anchor: IDL, provider, program *)

Record IdlAccount : Type := mkIdlAccount {
  acc_name : string;
  writable : bool;
  signer : bool
}.

Record IdlInstruction : Type := mkIdlInstruction {
  ix_name : string;
  discriminator : Buffer.t;
  ix_accounts : list IdlAccount
}.

Record Idl : Type := mkIdl {
  address : PublicKey;
  idl_instructions : list IdlInstruction
}.

Record Connection : Type := mkConnection { rpcEndpoint : string }.

(** The wallet handed to the provider is the "dummy" one: a public key,
    and two signing methods that reject. *)
Record Wallet : Type := mkWallet { publicKey : PublicKey; canSign : bool }.

Record AnchorProvider : Type := mkProvider {
  provider_connection : Connection;
  wallet : Wallet;
  preflightCommitment : string
}.

Record Program : Type := mkProgram {
  program_idl : Idl;
  program_provider : AnchorProvider
}.

(** [program.programId] is the address recorded in the IDL. *)
Definition program_programId (p : Program) : PublicKey := address (program_idl p).

Record SmartAccountState : Type := mkState {
  owner : PublicKey;
  delegates : list PublicKey;
  paused : bool
}.

(** ** The world outside an instance

    What a call can touch besides its arguments: anchor's module-level
    current provider (written by [anchor.setProvider]) and the accounts
    stored on the chain.  A computation maps the world to a result, the
    world after it, and the RPC requests it sent. *)

Record World : Type := mkWorld {
  anchor_provider : option AnchorProvider;
  chain : gmap PublicKey SmartAccountState
}.

Inductive RpcCall : Type :=
  | GetAccountInfo (c : Connection) (account : PublicKey).

Record Outcome (A : Type) : Type := mkOutcome {
  result : Result A;
  world : World;
  network : list RpcCall
}.
Arguments mkOutcome {A} _ _ _.
Arguments result {A} _.
Arguments world {A} _.
Arguments network {A} _.

Definition M (A : Type) : Type := World -> Outcome A.

Definition lift {A} (r : Result A) : M A := fun w => mkOutcome r w [].

Definition mbind {A B} (m : M A) (k : A -> M B) : M B := fun w =>
  let o := m w in
  match result o with
  | Ok a =>
      let o' := k a (world o) in
      mkOutcome (result o') (world o') (network o ++ network o')
  | Throw e => mkOutcome (Throw e) (world o) (network o)
  end.

Notation "x <~ m ;; k" := (mbind m (fun x => k))
  (at level 100, m at next level, right associativity, only parsing).

(** [anchor.setProvider(provider)] *)
Definition setProvider (p : AnchorProvider) : M unit := fun w =>
  mkOutcome (Ok tt) {| anchor_provider := Some p; chain := chain w |} [].

(** [program.account.smartAccount.fetch(address)]: one RPC read. *)
Definition account_fetch (p : Program) (account : PublicKey) : M SmartAccountState := fun w =>
  mkOutcome
    (match chain w !! account with
     | Some st => Ok st
     | None => Throw AccountDoesNotExist
     end)
    w [GetAccountInfo (provider_connection (program_provider p)) account].

(** *** The method builder

    [program.methods.name(args).accounts(ctx).remainingAccounts(rest).transaction()]
    looks the instruction up in the IDL, lists the accounts of its schema in
    the IDL's order with the IDL's flags, appends the remaining accounts,
    encodes discriminator and arguments, and adds the one instruction to a
    new [Transaction].  Every account of the schema is supplied by the
    caller here, so the accounts resolver has nothing to fetch. *)

Inductive IxArg : Type :=
  | ArgPubkey (k : PublicKey)
  | ArgBytes (b : Buffer.t).

(** Borsh: a public key is its bytes; [bytes] is a u32 length and the bytes. *)
Definition borsh (a : IxArg) : Buffer.t :=
  match a with
  | ArgPubkey k => k
  | ArgBytes b => Buffer.le_bytes 4 (Z.of_nat (length b)) ++ b
  end.

(** The instruction coder lays the arguments out in a 1000-byte buffer. *)
Definition encode (ix : IdlInstruction) (args : list IxArg) : Result Buffer.t :=
  let body := concat (map borsh args) in
  if (1000 <? length body)%nat then Throw ERR_OUT_OF_RANGE
  else Ok (discriminator ix ++ body).

Fixpoint accountsArray (ctx : gmap string PublicKey) (accs : list IdlAccount)
  : Result (list AccountMeta) :=
  match accs with
  | [] => Ok []
  | acc :: rest =>
      match ctx !! acc_name acc with
      | None => Throw AccountNotProvided
      | Some k =>
          metas <- accountsArray ctx rest ;;
          Ok (mkMeta k (signer acc) (writable acc) :: metas)
      end
  end.

Definition find_instruction (i : Idl) (name : string) : option IdlInstruction :=
  List.find (fun ix => String.eqb (ix_name ix) name) (idl_instructions i).

Definition build_transaction (p : Program) (name : string) (args : list IxArg)
    (accounts : gmap string PublicKey) (remainingAccounts : list AccountMeta)
  : Result Transaction :=
  match find_instruction (program_idl p) name with
  | None => Throw TypeError
  | Some ix =>
      keys <- accountsArray accounts (ix_accounts ix) ;;
      data <- encode ix args ;;
      Ok (Transaction_add Transaction_new
            (mkInstruction (keys ++ remainingAccounts) (program_programId p) data))
  end.

Definition methods_transaction (p : Program) (name : string) (args : list IxArg)
    (accounts : gmap string PublicKey) (remainingAccounts : list AccountMeta)
  : M Transaction :=
  lift (build_transaction p name args accounts remainingAccounts).

(** ** What [src/sdk.ts] imports and does not define *)

Class Externals : Type := {
  (** the hash and the curve test behind [PublicKey.createProgramAddressSync] *)
  sha256 : Buffer.t -> Buffer.t;
  isOnCurve : Buffer.t -> bool;
  (** [SystemProgram.programId], [TOKEN_PROGRAM_ID], [TOKEN_2022_PROGRAM_ID] *)
  SystemProgram_programId : PublicKey;
  TOKEN_PROGRAM_ID : PublicKey;
  TOKEN_2022_PROGRAM_ID : PublicKey;
  (** [import idl from './idl/smart_account.json'] *)
  idl : Idl
}.

Definition instanceof_TypeError (err : Error) : bool :=
  match err with TypeError => true | _ => false end.

Section ProgramAddress.
Context `{Externals}.

Definition MAX_SEED_LENGTH : nat := 32.

(** [PublicKey.createProgramAddressSync(seeds, programId)] *)
Definition createProgramAddressSync (seeds : list Buffer.t) (programId : PublicKey)
  : Result PublicKey :=
  if existsb (fun seed => (MAX_SEED_LENGTH <? length seed)%nat) seeds
  then Throw TypeError
  else
    let buffer := concat seeds ++ programId ++ Buffer.from_string "ProgramDerivedAddress" in
    let publicKeyBytes := sha256 buffer in
    if isOnCurve publicKeyBytes then Throw InvalidSeeds else Ok publicKeyBytes.

(** The loop of [PublicKey.findProgramAddressSync]:
<<
    let nonce = 255;
    while (nonce != 0) {
      try {
        const seedsWithNonce = seeds.concat(Buffer.from([nonce]));
        address = this.createProgramAddressSync(seedsWithNonce, programId);
      } catch (err) {
        if (err instanceof TypeError) throw err;
        nonce--;
        continue;
      }
      return [address, nonce];
    }
    throw new Error(`Unable to find a viable program address nonce`);
>> *)
Fixpoint find_nonce (nonce : nat) (seeds : list Buffer.t) (programId : PublicKey)
  : Result (PublicKey * Z) :=
  match nonce with
  | O => Throw NoViableNonce
  | S nonce' =>
      match createProgramAddressSync (seeds ++ [[Z.of_nat nonce]]) programId with
      | Ok address => Ok (address, Z.of_nat nonce)
      | Throw err =>
          if instanceof_TypeError err then Throw err
          else find_nonce nonce' seeds programId
      end
  end.

Definition findProgramAddressSync (seeds : list Buffer.t) (programId : PublicKey)
  : Result (PublicKey * Z) :=
  find_nonce 255 seeds programId.

(** The seeds of the smart-account address of [owner]. *)
Definition smart_seeds (owner : PublicKey) : list Buffer.t :=
  [Buffer.from_string "smart"; owner].

(** The bytes hashed for that address at a candidate bump. *)
Definition pda_preimage (owner : PublicKey) (bump : Z) (programId : PublicKey) : Buffer.t :=
  Buffer.from_string "smart" ++ owner ++ [bump] ++ programId
    ++ Buffer.from_string "ProgramDerivedAddress".

End ProgramAddress.

(** ** [class SmartAccountSDK] *)

Record SmartAccountSDK : Type := mkSDK {
  program : Program;
  provider : AnchorProvider;
  connection : Connection;
  userPublicKey : PublicKey
}.

(** [number | anchor.BN] *)
Inductive Amount : Type :=
  | Number (n : JS.number)
  | BigNum (b : BN.t).

(** The integer an amount stands for: a [number] equal to an integer, or
    the value of a well-formed [BN]. *)
Definition amount_integer (a : Amount) : option Z :=
  match a with
  | Number n => JS.to_integer n
  | BigNum b => if BN.wf b then Some (BN.value b) else None
  end.

(** The integer part of an amount: a finite [number] truncated toward
    zero, or the value of a well-formed [BN]. *)
Definition amount_integer_part (a : Amount) : option Z :=
  match a with
  | Number n =>
      match JS.dyadic n with
      | Some (n, k) => Some (Z.quot n (2 ^ k))
      | None => None
      end
  | BigNum b => if BN.wf b then Some (BN.value b) else None
  end.

(** The two layouts as the specification words them: a 4-byte little-endian
    selector [2] then the 8-byte little-endian amount; a 1-byte selector [3]
    then the 8-byte little-endian amount. *)
Definition native_transfer_encoding (v : Z) : Buffer.t :=
  Buffer.le_bytes 4 2 ++ Buffer.le_bytes 8 v.

Definition token_transfer_encoding (v : Z) : Buffer.t :=
  [3] ++ Buffer.le_bytes 8 v.

(** [typeof amount === 'number' ? new anchor.BN(amount) : amount] *)
Definition to_BN (amount : Amount) : Result BN.t :=
  match amount with
  | Number n => BN.of_number n
  | BigNum b => Ok b
  end.

(** The [instructionData] buffer of [executeSolTransfer]. *)
Definition executeSolTransfer_instructionData (lamports : Amount) : Result Buffer.t :=
  let instructionIndex := 2 in
  lamportsAmount <- to_BN lamports ;;
  let instructionData := Buffer.alloc 12 in
  instructionData <- Buffer.writeUInt32LE instructionData instructionIndex 0 ;;
  value <- JS.BigInt (BN.toString lamportsAmount) ;;
  Buffer.writeBigUInt64LE instructionData value 4.

(** The [instructionData] buffer of [executeTokenTransfer]. *)
Definition executeTokenTransfer_instructionData (amount : Amount) : Result Buffer.t :=
  transferAmount <- to_BN amount ;;
  let instructionData := Buffer.alloc 9 in
  instructionData <- Buffer.writeUInt8 instructionData 3 0 ;;
  value <- JS.BigInt (BN.toString transferAmount) ;;
  Buffer.writeBigUInt64LE instructionData value 1.

Section SDK.
Context `{Externals}.

Definition constructor (connection : Connection) (userPublicKey : PublicKey)
  : M SmartAccountSDK :=
  let dummyWallet := {| publicKey := userPublicKey; canSign := false |} in
  let provider := mkProvider connection dummyWallet "confirmed" in
  _ <~ setProvider provider ;;
  let program := mkProgram idl provider in
  lift (Ok (mkSDK program provider connection userPublicKey)).

Definition findSmartAccountPDA (this : SmartAccountSDK) (owner : PublicKey)
  : M (PublicKey * Z) :=
  lift (findProgramAddressSync
          [Buffer.from_string "smart"; owner]
          (program_programId (program this))).

Definition getSmartAccountState (this : SmartAccountSDK) (smartAccountAddress : PublicKey)
  : M SmartAccountState :=
  account_fetch (program this) smartAccountAddress.

Definition initialize (this : SmartAccountSDK) (owner : option PublicKey) : M Transaction :=
  let ownerKey := default (userPublicKey this) owner in
  pda <~ findSmartAccountPDA this ownerKey ;;
  let smartAccountPDA := fst pda in
  methods_transaction (program this) "initialize" []
    (<["smartAccount" := smartAccountPDA]>
       (<["owner" := ownerKey]>
          (<["systemProgram" := SystemProgram_programId]> ∅)))
    [].

Definition addDelegate (this : SmartAccountSDK) (delegate : PublicKey)
    (owner : option PublicKey) : M Transaction :=
  let ownerKey := default (userPublicKey this) owner in
  pda <~ findSmartAccountPDA this ownerKey ;;
  let smartAccountPDA := fst pda in
  methods_transaction (program this) "addDelegate" [ArgPubkey delegate]
    (<["smartAccount" := smartAccountPDA]> (<["owner" := ownerKey]> ∅))
    [].

Definition removeDelegate (this : SmartAccountSDK) (delegate : PublicKey)
    (owner : option PublicKey) : M Transaction :=
  let ownerKey := default (userPublicKey this) owner in
  pda <~ findSmartAccountPDA this ownerKey ;;
  let smartAccountPDA := fst pda in
  methods_transaction (program this) "removeDelegate" [ArgPubkey delegate]
    (<["smartAccount" := smartAccountPDA]> (<["owner" := ownerKey]> ∅))
    [].

Definition pause (this : SmartAccountSDK) (owner : option PublicKey) : M Transaction :=
  let ownerKey := default (userPublicKey this) owner in
  pda <~ findSmartAccountPDA this ownerKey ;;
  let smartAccountPDA := fst pda in
  methods_transaction (program this) "pause" []
    (<["smartAccount" := smartAccountPDA]> (<["owner" := ownerKey]> ∅))
    [].

Definition unpause (this : SmartAccountSDK) (owner : option PublicKey) : M Transaction :=
  let ownerKey := default (userPublicKey this) owner in
  pda <~ findSmartAccountPDA this ownerKey ;;
  let smartAccountPDA := fst pda in
  methods_transaction (program this) "unpause" []
    (<["smartAccount" := smartAccountPDA]> (<["owner" := ownerKey]> ∅))
    [].

Definition executeSolTransfer (this : SmartAccountSDK)
    (smartAccountOwner delegate recipient : PublicKey) (lamports : Amount)
  : M Transaction :=
  pda <~ findSmartAccountPDA this smartAccountOwner ;;
  let smartAccountPDA := fst pda in
  instructionData <~ lift (executeSolTransfer_instructionData lamports) ;;
  methods_transaction (program this) "execute" [ArgBytes instructionData]
    (<["smartAccount" := smartAccountPDA]> (<["delegate" := delegate]> ∅))
    [ mkMeta SystemProgram_programId false false;
      mkMeta smartAccountPDA false true;
      mkMeta recipient false true ].

Definition executeTokenTransfer (this : SmartAccountSDK)
    (smartAccountOwner delegate fromTokenAccount toTokenAccount : PublicKey)
    (amount : Amount) (useToken2022 : option bool)
  : M Transaction :=
  let useToken2022 := default false useToken2022 in
  pda <~ findSmartAccountPDA this smartAccountOwner ;;
  let smartAccountPDA := fst pda in
  instructionData <~ lift (executeTokenTransfer_instructionData amount) ;;
  let tokenProgramId := if useToken2022 then TOKEN_2022_PROGRAM_ID else TOKEN_PROGRAM_ID in
  methods_transaction (program this) "execute" [ArgBytes instructionData]
    (<["smartAccount" := smartAccountPDA]> (<["delegate" := delegate]> ∅))
    [ mkMeta tokenProgramId false false;
      mkMeta fromTokenAccount false true;
      mkMeta toTokenAccount false true;
      mkMeta smartAccountPDA false false ].

Definition executeCustomInstruction (this : SmartAccountSDK)
    (smartAccountOwner delegate targetProgram : PublicKey)
    (instructionData : Buffer.t) (remainingAccounts : list AccountMeta)
  : M Transaction :=
  pda <~ findSmartAccountPDA this smartAccountOwner ;;
  let smartAccountPDA := fst pda in
  methods_transaction (program this) "execute" [ArgBytes instructionData]
    (<["smartAccount" := smartAccountPDA]> (<["delegate" := delegate]> ∅))
    (mkMeta targetProgram false false :: remainingAccounts).

(** A call of one of the eight composer methods, and its execution. *)
Inductive ComposerCall : Type :=
  | Initialize (owner : option PublicKey)
  | AddDelegate (delegate : PublicKey) (owner : option PublicKey)
  | RemoveDelegate (delegate : PublicKey) (owner : option PublicKey)
  | Pause (owner : option PublicKey)
  | Unpause (owner : option PublicKey)
  | ExecuteSolTransfer (smartAccountOwner delegate recipient : PublicKey) (lamports : Amount)
  | ExecuteTokenTransfer (smartAccountOwner delegate fromTokenAccount toTokenAccount : PublicKey)
      (amount : Amount) (useToken2022 : option bool)
  | ExecuteCustomInstruction (smartAccountOwner delegate targetProgram : PublicKey)
      (instructionData : Buffer.t) (remainingAccounts : list AccountMeta).

Definition compose (this : SmartAccountSDK) (c : ComposerCall) : M Transaction :=
  match c with
  | Initialize o => initialize this o
  | AddDelegate d o => addDelegate this d o
  | RemoveDelegate d o => removeDelegate this d o
  | Pause o => pause this o
  | Unpause o => unpause this o
  | ExecuteSolTransfer o d r a => executeSolTransfer this o d r a
  | ExecuteTokenTransfer o d f t a u => executeTokenTransfer this o d f t a u
  | ExecuteCustomInstruction o d p b r => executeCustomInstruction this o d p b r
  end.

(** The owner whose smart account a call addresses: the [owner] argument,
    or [userPublicKey] when it is omitted ([owner || this.userPublicKey]);
    the [smartAccountOwner] argument of the three execute methods. *)
Definition seed_owner (this : SmartAccountSDK) (c : ComposerCall) : PublicKey :=
  match c with
  | Initialize o | AddDelegate _ o | RemoveDelegate _ o | Pause o | Unpause o =>
      default (userPublicKey this) o
  | ExecuteSolTransfer o _ _ _ => o
  | ExecuteTokenTransfer o _ _ _ _ _ => o
  | ExecuteCustomInstruction o _ _ _ _ => o
  end.

(** The array a call passes to [.remainingAccounts(...)]; the five owner
    methods pass none. *)
Definition call_remainingAccounts (c : ComposerCall) (smartAccountPDA : PublicKey)
  : list AccountMeta :=
  match c with
  | ExecuteSolTransfer _ _ recipient _ =>
      [ mkMeta SystemProgram_programId false false;
        mkMeta smartAccountPDA false true;
        mkMeta recipient false true ]
  | ExecuteTokenTransfer _ _ fromTokenAccount toTokenAccount _ useToken2022 =>
      [ mkMeta (if default false useToken2022
                then TOKEN_2022_PROGRAM_ID else TOKEN_PROGRAM_ID) false false;
        mkMeta fromTokenAccount false true;
        mkMeta toTokenAccount false true;
        mkMeta smartAccountPDA false false ]
  | ExecuteCustomInstruction _ _ targetProgram _ remainingAccounts =>
      mkMeta targetProgram false false :: remainingAccounts
  | _ => []
  end.

End SDK.

(** The method name and the arguments of the four calls that take the owner
    and no account beyond the smart account and the owner. *)
Definition owner_method (c : ComposerCall)
  : option (string * list IxArg * option PublicKey) :=
  match c with
  | AddDelegate d o => Some ("addDelegate", [ArgPubkey d], o)
  | RemoveDelegate d o => Some ("removeDelegate", [ArgPubkey d], o)
  | Pause o => Some ("pause", [], o)
  | Unpause o => Some ("unpause", [], o)
  | _ => None
  end.

(** ** The IDL document *)

(** Modelled from the spec: the IDL document [src/idl/smart_account.json],
    which the class imports and which fixes, per instruction, the order of
    the required accounts and their flags.  The table of the public
    operations gives the required accounts of each instruction in order,
    tagging the signers and the writable accounts, and the testable
    properties tag the system program read-only.  An account is a signer
    exactly when it is tagged so.  Where the table does not say whether an
    account is writable, the flag is [unstated_writable ix account]; the
    program identifier and the 8-byte instruction discriminators are not
    given either and stay parameters. *)
Definition smart_account_idl (programId : PublicKey) (disc : string -> Buffer.t)
    (unstated_writable : string -> string -> bool) : Idl :=
  let by_owner (name : string) (more : list IdlAccount) :=
    mkIdlInstruction name (disc name)
      ([ mkIdlAccount "smartAccount" true false;
         mkIdlAccount "owner" (unstated_writable name "owner") true ] ++ more) in
  mkIdl programId
    [ by_owner "initialize" [ mkIdlAccount "systemProgram" false false ];
      by_owner "addDelegate" [];
      by_owner "removeDelegate" [];
      by_owner "pause" [];
      by_owner "unpause" [];
      mkIdlInstruction "execute" (disc "execute")
        [ mkIdlAccount "smartAccount" (unstated_writable "execute" "smartAccount") false;
          mkIdlAccount "delegate" (unstated_writable "execute" "delegate") true ] ].

(** ** A small instance of the parameters

    Used to run the definitions on concrete inputs: a 32-byte mixing
    function in place of SHA-256, a parity test in place of the curve test,
    and three distinct program identifiers. *)

Definition demo_hash (b : Buffer.t) : Buffer.t :=
  Buffer.le_bytes 32 (fold_left (fun h x => (31 * h + x) mod 2 ^ 256) b 7).

Definition demo_onCurve (k : Buffer.t) : bool := Z.odd (hd 0 (tail k)).

Definition demo_programId : PublicKey := replicate 32 9.

Definition demo_disc (name : string) : Buffer.t :=
  take 8 (Buffer.from_string name ++ replicate 8 0).

Definition demo_writable (ix account : string) : bool := String.eqb account "owner".

#[local] Instance demo_externals : Externals := {|
  sha256 := demo_hash;
  isOnCurve := demo_onCurve;
  SystemProgram_programId := replicate 32 0;
  TOKEN_PROGRAM_ID := replicate 32 6;
  TOKEN_2022_PROGRAM_ID := replicate 32 7;
  idl := smart_account_idl demo_programId demo_disc demo_writable
|}.

Definition demo_connection : Connection := mkConnection "https://api.devnet.solana.com".
Definition demo_user : PublicKey := replicate 32 1.
Definition demo_delegate : PublicKey := replicate 32 2.
Definition demo_recipient : PublicKey := replicate 32 3.
Definition demo_world : World := mkWorld None ∅.

(** The instance [new SmartAccountSDK(connection, user)] builds. *)
Definition demo_sdk : SmartAccountSDK :=
  let p := mkProvider demo_connection (mkWallet demo_user false) "confirmed" in
  mkSDK (mkProgram idl p) p demo_connection demo_user.

(** The [execute] entry of that IDL. *)
Definition demo_execute : IdlInstruction :=
  mkIdlInstruction "execute" (demo_disc "execute")
    [ mkIdlAccount "smartAccount" false false; mkIdlAccount "delegate" false true ].

(** A second instance of the parameters: the hash keeps its input and no
    hash is on the curve, so that distinct inputs never collide. *)
Definition plain_externals : Externals := {|
  sha256 := fun b => b;
  isOnCurve := fun _ => false;
  SystemProgram_programId := replicate 32 0;
  TOKEN_PROGRAM_ID := replicate 32 6;
  TOKEN_2022_PROGRAM_ID := replicate 32 7;
  idl := smart_account_idl demo_programId demo_disc demo_writable
|}.

(** A third one, where every hash is on the curve. *)
Definition on_curve_externals : Externals := {|
  sha256 := demo_hash;
  isOnCurve := fun _ => true;
  SystemProgram_programId := replicate 32 0;
  TOKEN_PROGRAM_ID := replicate 32 6;
  TOKEN_2022_PROGRAM_ID := replicate 32 7;
  idl := smart_account_idl demo_programId demo_disc demo_writable
|}.

(** The [pause] entry of the demo IDL, and a 33-byte key. *)
Definition demo_pause : IdlInstruction :=
  mkIdlInstruction "pause" (demo_disc "pause")
    [ mkIdlAccount "smartAccount" true false; mkIdlAccount "owner" true true ].

Definition demo_long_key : PublicKey := replicate 33 1.

(** The number [1.5]. *)
Definition one_and_a_half : JS.number := S754_finite false 6755399441055744 (-52).

(** The number [2^60]. *)
Definition two_60 : JS.number := S754_finite false 4503599627370496 8.

(** Number literals: [2^53] and [-0.5]. *)
Definition two_53 : JS.number := S754_finite false 4503599627370496 1.

(** * Properties *)

(** ** Decimal strings *)

Lemma digit_of_digit_char d :
  0 <= d < 10 -> JS.digit_of_char (JS.digit_char d) = Some d.
Proof.
  intros Hd.
  assert (d = 0 \/ d = 1 \/ d = 2 \/ d = 3 \/ d = 4 \/ d = 5 \/ d = 6 \/
          d = 7 \/ d = 8 \/ d = 9) as Hcases by lia.
  repeat (destruct Hcases as [-> | Hcases]; [reflexivity |]).
  subst d. reflexivity.
Qed.

Lemma parse_digits_onto fuel : forall n acc,
  0 <= n < 2 ^ Z.of_nat fuel ->
  JS.parse_digits (JS.digits_onto fuel n acc) 0 = JS.parse_digits acc n.
Proof.
  induction fuel as [| fuel IH]; intros n acc Hn.
  - simpl in *. replace n with 0 by lia. reflexivity.
  - cbn [JS.digits_onto]. destruct (Z.ltb_spec n 10) as [Hlt | Hge].
    + cbn [JS.parse_digits]. rewrite Z.mod_small by lia.
      rewrite digit_of_digit_char by lia. reflexivity.
    + rewrite IH.
      * cbn [JS.parse_digits].
        rewrite digit_of_digit_char by (apply Z.mod_pos_bound; lia).
        f_equal. pose proof (Z.div_mod n 10). lia.
      * rewrite Nat2Z.inj_succ, Z.pow_succ_r in Hn by lia.
        split; [apply Z.div_pos; lia |].
        apply Z.div_lt_upper_bound; lia.
Qed.

Lemma lt_pow2_log2 n : 0 <= n -> n < 2 ^ Z.of_nat (S (Z.to_nat (Z.log2 n))).
Proof.
  intros Hn. rewrite Nat2Z.inj_succ, Z2Nat.id by apply Z.log2_nonneg.
  destruct (Z.eq_dec n 0) as [-> | Hne]; [reflexivity |].
  apply Z.log2_spec. lia.
Qed.

Lemma parse_decimal n : 0 <= n -> JS.parse_digits (JS.decimal n) 0 = Some n.
Proof.
  intros Hn. unfold JS.decimal.
  rewrite parse_digits_onto; [reflexivity |].
  split; [assumption | apply lt_pow2_log2; assumption].
Qed.

Lemma digits_onto_cons fuel : forall n c acc,
  exists c' s, JS.digits_onto fuel n (String c acc) = String c' s.
Proof.
  induction fuel as [| fuel IH]; intros n c acc; cbn [JS.digits_onto].
  - eauto.
  - destruct (n <? 10); eauto.
Qed.

Lemma decimal_nonempty n : exists c s, JS.decimal n = String c s.
Proof.
  unfold JS.decimal. cbn [JS.digits_onto].
  destruct (n <? 10); [eauto | apply digits_onto_cons].
Qed.

Lemma decimal_head_digit n : 0 <= n ->
  exists c s, JS.decimal n = String c s /\ c <> "-"%char.
Proof.
  intros Hn. destruct (decimal_nonempty n) as (c & s & E).
  exists c, s. split; [assumption |].
  pose proof (parse_decimal n Hn) as P. rewrite E in P. cbn in P.
  intros ->. discriminate P.
Qed.

Lemma BigInt_decimal n : 0 <= n -> JS.BigInt (JS.decimal n) = Ok n.
Proof.
  intros Hn. destruct (decimal_head_digit n Hn) as (c & s & E & Hc).
  pose proof (parse_decimal n Hn) as P. rewrite E in *.
  unfold JS.BigInt.
  destruct c as [[] [] [] [] [] [] [] []]; try (rewrite P; reflexivity).
  contradiction Hc. reflexivity.
Qed.

Lemma BigInt_minus_decimal n :
  0 <= n -> JS.BigInt (String "-"%char (JS.decimal n)) = Ok (- n).
Proof.
  intros Hn. destruct (decimal_nonempty n) as (c & s & E).
  pose proof (parse_decimal n Hn) as P. rewrite E in *.
  unfold JS.BigInt. rewrite P. reflexivity.
Qed.

(** ** Bytes written by the [Buffer] writers *)

Lemma byte_as_bits x : x mod 256 = Z.land x (Z.ones 8).
Proof. rewrite Z.land_ones by lia. reflexivity. Qed.

Lemma div256_as_shift x : x / 256 = Z.shiftr x 8.
Proof. rewrite Z.shiftr_div_pow2 by lia. reflexivity. Qed.

(** Masking to 32 bits does not change a byte taken below bit 32. *)
Lemma byte_of_masked v i :
  0 <= i -> i + 8 <= 32 ->
  Z.land (Z.shiftr (Z.land v (Z.ones 32)) i) (Z.ones 8)
  = Z.land (Z.shiftr v i) (Z.ones 8).
Proof.
  intros Hi Hi'. apply Z.bits_inj'. intros n Hn.
  rewrite !Z.land_spec, !Z.shiftr_spec, Z.land_spec by lia.
  destruct (Z.ltb_spec n 8) as [Hlt | Hge].
  - rewrite (Z.ones_spec_low 32) by lia. rewrite andb_true_r. reflexivity.
  - rewrite (Z.ones_spec_high 8) by lia. rewrite !andb_false_r. reflexivity.
Qed.

Ltac bytes_to_bits :=
  rewrite ?byte_as_bits, ?div256_as_shift;
  change 4294967295 with (Z.ones 32);
  rewrite ?Z.shiftr_shiftr by lia;
  cbn [Z.add Pos.add Pos.succ Pos.add_carry].

Lemma written_u64 v :
  let lo := Z.land v 0xffffffff in
  let hi := Z.land (Z.shiftr v 32) 0xffffffff in
  [ lo mod 256;
    Z.shiftr lo 8 mod 256;
    Z.shiftr (Z.shiftr lo 8) 8 mod 256;
    Z.shiftr (Z.shiftr (Z.shiftr lo 8) 8) 8 mod 256;
    hi mod 256;
    Z.shiftr hi 8 mod 256;
    Z.shiftr (Z.shiftr hi 8) 8 mod 256;
    Z.shiftr (Z.shiftr (Z.shiftr hi 8) 8) 8 mod 256 ]
  = Buffer.le_bytes 8 v.
Proof.
  cbv zeta. cbn [Buffer.le_bytes]. bytes_to_bits.
  rewrite <- (Z.shiftr_0_r (Z.land v (Z.ones 32))) at 1.
  rewrite <- (Z.shiftr_0_r (Z.land (Z.shiftr v 32) (Z.ones 32))) at 1.
  rewrite !byte_of_masked by lia.
  rewrite ?Z.shiftr_shiftr by lia.
  rewrite !Z.shiftr_0_r.
  reflexivity.
Qed.

Lemma writeBigUInt64LE_range buf v off :
  v < 0 \/ 2 ^ 64 - 1 < v ->
  Buffer.writeBigUInt64LE buf v off = Throw ERR_OUT_OF_RANGE.
Proof.
  intros Hv. unfold Buffer.writeBigUInt64LE.
  destruct (Z.ltb_spec 0xffffffffffffffff v), (Z.ltb_spec v 0);
    try reflexivity; lia.
Qed.

Lemma writeBigUInt64LE_tail4 v b0 b1 b2 b3 :
  0 <= v <= 2 ^ 64 - 1 ->
  Buffer.writeBigUInt64LE (b0 :: b1 :: b2 :: b3 :: replicate 8 0) v 4
  = Ok ([b0; b1; b2; b3] ++ Buffer.le_bytes 8 v).
Proof.
  intros Hv. unfold Buffer.writeBigUInt64LE.
  destruct (Z.ltb_spec 0xffffffffffffffff v); [lia |].
  destruct (Z.ltb_spec v 0); [lia |].
  rewrite <- written_u64. reflexivity.
Qed.

Lemma writeBigUInt64LE_tail1 v b0 :
  0 <= v <= 2 ^ 64 - 1 ->
  Buffer.writeBigUInt64LE (b0 :: replicate 8 0) v 1
  = Ok (b0 :: Buffer.le_bytes 8 v).
Proof.
  intros Hv. unfold Buffer.writeBigUInt64LE.
  destruct (Z.ltb_spec 0xffffffffffffffff v); [lia |].
  destruct (Z.ltb_spec v 0); [lia |].
  rewrite <- written_u64. reflexivity.
Qed.

Lemma le_bytes_length n : forall v, length (Buffer.le_bytes n v) = n.
Proof. induction n as [| n IH]; intros v; simpl; [reflexivity | f_equal; apply IH]. Qed.

Lemma le_value_bytes n : forall v,
  Buffer.le_value (Buffer.le_bytes n v) = v mod 2 ^ (8 * Z.of_nat n).
Proof.
  induction n as [| n IH]; intros v.
  - simpl. rewrite Z.mod_1_r. reflexivity.
  - cbn [Buffer.le_bytes Buffer.le_value]. rewrite IH.
    replace (8 * Z.of_nat (S n)) with (8 + 8 * Z.of_nat n) by lia.
    rewrite Z.pow_add_r by lia. change (2 ^ 8) with 256.
    rewrite Z.rem_mul_r by lia. reflexivity.
Qed.

Lemma le_bytes_range n : forall v,
  Forall (fun b => 0 <= b < 256) (Buffer.le_bytes n v).
Proof.
  induction n as [| n IH]; intros v; simpl; constructor;
    [apply Z.mod_pos_bound; lia | apply IH].
Qed.

(** ** [BN]: value, printing and reading back *)

Lemma magnitude_nonneg b : BN.wf b = true -> 0 <= BN.magnitude b.
Proof.
  destruct b as [s ws]. unfold BN.wf, BN.magnitude. simpl.
  induction ws as [| w ws IH]; simpl; [lia |].
  intros Hwf. apply andb_prop in Hwf as [Hw Hws].
  apply andb_prop in Hw as [Hw _]. specialize (IH Hws). lia.
Qed.

Lemma BigInt_toString b :
  BN.wf b = true -> JS.BigInt (BN.toString b) = Ok (BN.value b).
Proof.
  intros Hwf. pose proof (magnitude_nonneg b Hwf) as Hm.
  unfold BN.toString, BN.value. destruct (BN.negative b).
  - apply BigInt_minus_decimal. assumption.
  - apply BigInt_decimal. assumption.
Qed.

Lemma magnitude_limbs fuel : forall n,
  0 <= n < 2 ^ Z.of_nat fuel ->
  foldr (fun w acc => w + 2 ^ 26 * acc) 0 (BN.limbs fuel n) = n
  /\ forallb (fun w => (0 <=? w) && (w <? 2 ^ 26)) (BN.limbs fuel n) = true.
Proof.
  induction fuel as [| fuel IH]; intros n Hn.
  - simpl in *. split; [lia | reflexivity].
  - cbn [BN.limbs]. destruct (Z.ltb_spec n (2 ^ 26)) as [Hlt | Hge].
    + cbn [foldr forallb]. split; [lia |].
      rewrite andb_true_r. apply andb_true_intro. split; [apply Z.leb_le | apply Z.ltb_lt]; lia.
    + destruct (IH (n / 2 ^ 26)) as [Hv Hw].
      { rewrite Nat2Z.inj_succ, Z.pow_succ_r in Hn by lia.
        split; [apply Z.div_pos; lia | apply Z.div_lt_upper_bound; lia]. }
      cbn [foldr forallb]. rewrite Hv, Hw. split.
      * pose proof (Z.div_mod n (2 ^ 26)). lia.
      * rewrite andb_true_r. pose proof (Z.mod_pos_bound n (2 ^ 26)).
        apply andb_true_intro. split; [apply Z.leb_le | apply Z.ltb_lt]; lia.
Qed.

Lemma of_Z_value z : BN.wf (BN.of_Z z) = true /\ BN.value (BN.of_Z z) = z.
Proof.
  destruct (magnitude_limbs (S (Z.to_nat (Z.log2 (Z.abs z)))) (Z.abs z)) as [Hv Hw].
  { split; [lia | apply lt_pow2_log2; lia]. }
  unfold BN.wf, BN.value, BN.magnitude, BN.of_Z. cbn [BN.words BN.negative].
  split; [exact Hw |]. rewrite Hv. destruct (Z.ltb_spec z 0); lia.
Qed.

(** ** [new BN(number)] *)

Lemma dyadic_exponent x n k : JS.dyadic x = Some (n, k) -> 0 <= k.
Proof.
  destruct x as [s | s | | s m e]; simpl; try discriminate.
  - intros [= <- <-]. lia.
  - destruct (Z.leb_spec 0 e); intros [= <- <-]; lia.
Qed.

Lemma dyadic_neg x n k :
  JS.dyadic x = Some (n, k) -> JS.dyadic (JS.neg x) = Some (- n, k).
Proof.
  destruct x as [s | s | | s m e]; simpl; try discriminate.
  - intros [= <- <-]. reflexivity.
  - destruct (Z.leb_spec 0 e); intros [= <- <-]; destruct s; simpl; f_equal; f_equal; lia.
Qed.

Lemma lt_lit_dyadic x n k c :
  JS.dyadic x = Some (n, k) -> JS.lt_lit x c = (n <? c * 2 ^ k).
Proof.
  destruct x as [s | s | | s m e]; simpl; try discriminate.
  - intros [= <- <-]. reflexivity.
  - intros ->. reflexivity.
Qed.

Lemma wrap_int32_low t : Z.land (JS.wrap_int32 t) 0x3ffffff = t mod 2 ^ 26.
Proof.
  unfold JS.wrap_int32. change 0x3ffffff with (Z.ones 26).
  rewrite Z.land_ones by lia.
  pose proof (Z.div_mod (t + 2 ^ 31) (2 ^ 32) ltac:(lia)) as E.
  replace ((t + 2 ^ 31) mod 2 ^ 32 - 2 ^ 31)
    with (t + (- (64 * ((t + 2 ^ 31) / 2 ^ 32))) * 2 ^ 26) by lia.
  apply Z_mod_plus_full.
Qed.

Lemma band_dyadic a k :
  0 <= a -> 0 <= k -> JS.band (Some (a, k)) 0x3ffffff = (a / 2 ^ k) mod 2 ^ 26.
Proof.
  intros Ha Hk. unfold JS.band, JS.ToInt32.
  rewrite wrap_int32_low, Z.quot_div_nonneg; [reflexivity | lia | ].
  apply Z.pow_pos_nonneg; lia.
Qed.

(** The limbs built from a non-negative number whose integer part is [t]. *)
Lemma _initNumber_nonneg y a k :
  JS.dyadic y = Some (a, k) -> 0 <= a ->
  let t := a / 2 ^ k in
  let w0 := JS.band (JS.dyadic y) 0x3ffffff in
  let w1 := JS.band (JS.div_pow2_exact y 26) 0x3ffffff in
  (t < 2 ^ 26 -> JS.lt_lit y 0x4000000 = true /\ w0 = t)
  /\ (2 ^ 26 <= t < 2 ^ 52 ->
      JS.lt_lit y 0x4000000 = false /\ JS.lt_lit y 0x10000000000000 = true
      /\ w0 + 2 ^ 26 * w1 = t /\ 0 <= w0 < 2 ^ 26 /\ 0 <= w1 < 2 ^ 26)
  /\ (2 ^ 52 <= t < 2 ^ 53 ->
      JS.lt_lit y 0x4000000 = false /\ JS.lt_lit y 0x10000000000000 = false
      /\ JS.lt_lit y 0x20000000000000 = true
      /\ w0 + 2 ^ 26 * (w1 + 2 ^ 26) = t /\ 0 <= w0 < 2 ^ 26 /\ 0 <= w1 < 2 ^ 26)
  /\ (2 ^ 53 <= t ->
      JS.lt_lit y 0x4000000 = false /\ JS.lt_lit y 0x10000000000000 = false
      /\ JS.lt_lit y 0x20000000000000 = false).
Proof.
  intros Hy Ha t w0 w1.
  pose proof (dyadic_exponent _ _ _ Hy) as Hk.
  assert (0 < 2 ^ k) as Hp by (apply Z.pow_pos_nonneg; lia).
  assert (0 <= t) as Ht by (apply Z.div_pos; lia).
  assert (forall c, JS.lt_lit y c = (t <? c)) as Hlt.
  { intros c. rewrite (lt_lit_dyadic _ _ _ _ Hy).
    pose proof (Z.div_mod a (2 ^ k) ltac:(lia)) as Ea.
    pose proof (Z.mod_pos_bound a (2 ^ k) Hp) as Ba.
    fold t in Ea.
    destruct (Z.ltb_spec t c) as [H1 | H1].
    - apply Z.ltb_lt. nia.
    - apply Z.ltb_ge. nia. }
  assert (w0 = t mod 2 ^ 26) as E0.
  { subst w0. rewrite Hy. apply band_dyadic; assumption. }
  assert (w1 = (t / 2 ^ 26) mod 2 ^ 26) as E1.
  { subst w1. unfold JS.div_pow2_exact. rewrite Hy.
    rewrite band_dyadic by lia. subst t.
    rewrite Z.pow_add_r, Z.div_div by lia. reflexivity. }
  pose proof (Z.div_mod t (2 ^ 26) ltac:(lia)) as Et.
  pose proof (Z.mod_pos_bound t (2 ^ 26) ltac:(lia)) as B0.
  pose proof (Z.mod_pos_bound (t / 2 ^ 26) (2 ^ 26) ltac:(lia)) as B1.
  rewrite !Hlt, E0, E1.
  change 0x4000000 with (2 ^ 26). change 0x10000000000000 with (2 ^ 52).
  change 0x20000000000000 with (2 ^ 53).
  split; [| split; [| split]]; intros Hr.
  - split; [apply Z.ltb_lt; lia | apply Z.mod_small; lia].
  - assert (0 <= t / 2 ^ 26 < 2 ^ 26) as Hq
      by (split; [apply Z.div_pos; lia | apply Z.div_lt_upper_bound; lia]).
    rewrite (Z.mod_small (t / 2 ^ 26)) by exact Hq.
    repeat split; try (apply Z.ltb_lt; lia); try (apply Z.ltb_ge; lia); lia.
  - assert (2 ^ 26 <= t / 2 ^ 26 < 2 ^ 27) as Hq
      by (split; [apply Z.div_le_lower_bound; lia | apply Z.div_lt_upper_bound; lia]).
    assert ((t / 2 ^ 26) mod 2 ^ 26 = t / 2 ^ 26 - 2 ^ 26) as Em
      by (symmetry; apply Z.mod_unique with (q := 1); lia).
    rewrite Em.
    repeat split; try (apply Z.ltb_lt; lia); try (apply Z.ltb_ge; lia); lia.
  - repeat split; apply Z.ltb_ge; lia.
Qed.

Lemma limb_ok w : 0 <= w < 2 ^ 26 -> (0 <=? w) && (w <? 2 ^ 26) = true.
Proof.
  intros Hw. apply andb_true_intro.
  split; [apply Z.leb_le | apply Z.ltb_lt]; lia.
Qed.

Lemma _initNumber_spec x n k :
  JS.dyadic x = Some (n, k) ->
  let t := Z.abs n / 2 ^ k in
  (t < 2 ^ 53 ->
   exists ws, BN._initNumber x = Ok (BN.mk (n <? 0) ws)
              /\ BN.magnitude (BN.mk (n <? 0) ws) = t
              /\ BN.wf (BN.mk (n <? 0) ws) = true)
  /\ (2 ^ 53 <= t -> BN._initNumber x = Throw AssertionFailed).
Proof.
  intros Hx t.
  pose proof (dyadic_exponent _ _ _ Hx) as Hk.
  assert (0 < 2 ^ k) as Hp by (apply Z.pow_pos_nonneg; lia).
  assert (0 <= t) as Ht by (apply Z.div_pos; lia).
  unfold BN._initNumber. rewrite (lt_lit_dyadic _ _ _ 0 Hx). rewrite Z.mul_0_l.
  set (y := if n <? 0 then JS.neg x else x).
  assert (JS.dyadic y = Some (Z.abs n, k)) as Hy.
  { subst y. destruct (Z.ltb_spec n 0).
    - rewrite (dyadic_neg _ _ _ Hx). f_equal. f_equal. lia.
    - rewrite Hx. f_equal. f_equal. lia. }
  destruct (_initNumber_nonneg y (Z.abs n) k Hy ltac:(lia)) as (C1 & C2 & C3 & C4).
  cbv zeta in C1, C2, C3, C4. fold t in C1, C2, C3, C4.
  unfold BN.magnitude, BN.wf. cbn [BN.words].
  split.
  - intros Hlt.
    destruct (Z.lt_ge_cases t (2 ^ 26)) as [H1 | H1];
      [| destruct (Z.lt_ge_cases t (2 ^ 52)) as [H2 | H2]].
    + destruct (C1 H1) as [-> E0]. eexists. split; [reflexivity |].
      cbn [foldr forallb]. rewrite E0. split; [lia |].
      rewrite limb_ok by lia. reflexivity.
    + destruct (C2 (conj H1 H2)) as (-> & -> & E & B0 & B1).
      eexists. split; [reflexivity |].
      cbn [foldr forallb]. split; [lia |].
      rewrite !limb_ok by lia. reflexivity.
    + destruct (C3 (conj H2 Hlt)) as (-> & -> & -> & E & B0 & B1).
      eexists. split; [reflexivity |].
      cbn [foldr forallb]. split; [lia |].
      rewrite !limb_ok by lia. reflexivity.
  - intros Hge. destruct (C4 Hge) as (-> & -> & ->). reflexivity.
Qed.

Lemma quot_pow2_abs n k :
  0 <= k -> Z.quot n (2 ^ k) = if n <? 0 then - (Z.abs n / 2 ^ k) else Z.abs n / 2 ^ k.
Proof.
  intros Hk. assert (0 < 2 ^ k) as Hp by (apply Z.pow_pos_nonneg; lia).
  destruct (Z.ltb_spec n 0) as [Hn | Hn].
  - replace n with (- Z.abs n) at 1 by lia.
    rewrite Z.quot_opp_l by lia. rewrite Z.quot_div_nonneg by lia. reflexivity.
  - rewrite Z.abs_eq by lia. apply Z.quot_div_nonneg; lia.
Qed.

(** [new BN(x)] for a finite [x]: the integer part of [x] when its magnitude
    is below [2^53], an assertion failure otherwise. *)
Lemma of_number_finite x n k :
  JS.dyadic x = Some (n, k) ->
  let t := Z.quot n (2 ^ k) in
  (Z.abs t < 2 ^ 53 ->
   exists b, BN.of_number x = Ok b /\ BN.wf b = true /\ BN.value b = t)
  /\ (2 ^ 53 <= Z.abs t -> BN.of_number x = Throw AssertionFailed).
Proof.
  intros Hx t.
  pose proof (dyadic_exponent _ _ _ Hx) as Hk.
  assert (0 < 2 ^ k) as Hp by (apply Z.pow_pos_nonneg; lia).
  assert (0 <= Z.abs n / 2 ^ k) as Hq by (apply Z.div_pos; lia).
  assert (JS.dyadic (if JS.truthy x then x else S754_zero false) = Some (n, k)) as Hx'.
  { destruct x as [s | s | | s m e]; simpl in *; try discriminate; assumption. }
  destruct (_initNumber_spec _ _ _ Hx') as [S1 S2]. cbv zeta in S1, S2.
  assert (Z.abs t = Z.abs n / 2 ^ k) as Eabs.
  { subst t. rewrite quot_pow2_abs by assumption. destruct (n <? 0); lia. }
  unfold BN.of_number. split.
  - intros Hlt. destruct S1 as (ws & E & Em & Ew); [lia |].
    eexists. split; [exact E |]. split; [exact Ew |].
    unfold BN.value. rewrite Em. cbn [BN.negative].
    subst t. rewrite quot_pow2_abs by assumption. reflexivity.
  - intros Hge. apply S2. lia.
Qed.

(** A number equal to the integer [v]. *)
Lemma of_number_integer x v :
  JS.to_integer x = Some v ->
  (Z.abs v < 2 ^ 53 ->
   exists b, BN.of_number x = Ok b /\ BN.wf b = true /\ BN.value b = v)
  /\ (2 ^ 53 <= Z.abs v -> BN.of_number x = Throw AssertionFailed).
Proof.
  unfold JS.to_integer. destruct (JS.dyadic x) as [[n k] |] eqn:Hx; [| discriminate].
  destruct (Z.eqb_spec (n mod 2 ^ k) 0) as [Hdiv | ]; [| discriminate].
  intros [= <-].
  pose proof (dyadic_exponent _ _ _ Hx) as Hk.
  assert (0 < 2 ^ k) as Hp by (apply Z.pow_pos_nonneg; lia).
  assert (Z.quot n (2 ^ k) = n / 2 ^ k) as E.
  { pose proof (Z.div_mod n (2 ^ k) ltac:(lia)) as Ed. rewrite Hdiv in Ed.
    rewrite Ed at 1. rewrite Z.add_0_r, Z.mul_comm. apply Z.quot_mul. lia. }
  rewrite <- E. apply of_number_finite. assumption.
Qed.

(** ** The two instruction-data buffers *)

Lemma amount_integer_is_part a v :
  amount_integer a = Some v -> amount_integer_part a = Some v.
Proof.
  destruct a as [x | b]; simpl; [| trivial].
  unfold JS.to_integer. destruct (JS.dyadic x) as [[n k] |] eqn:Hx; [| discriminate].
  destruct (Z.eqb_spec (n mod 2 ^ k) 0) as [Hdiv | ]; [| discriminate].
  intros [= <-]. f_equal.
  pose proof (dyadic_exponent _ _ _ Hx) as Hk.
  assert (0 < 2 ^ k) as Hp by (apply Z.pow_pos_nonneg; lia).
  pose proof (Z.div_mod n (2 ^ k) ltac:(lia)) as Ed. rewrite Hdiv in Ed.
  rewrite Ed at 1. rewrite Z.add_0_r, Z.mul_comm. apply Z.quot_mul. lia.
Qed.

(** What [to_BN] makes of an amount with integer part [t]. *)
Lemma to_BN_integer_part a t :
  amount_integer_part a = Some t ->
  (exists b, to_BN a = Ok b /\ BN.wf b = true /\ BN.value b = t)
  \/ (to_BN a = Throw AssertionFailed
      /\ 2 ^ 53 <= Z.abs t /\ exists x, a = Number x).
Proof.
  destruct a as [x | b]; simpl.
  - destruct (JS.dyadic x) as [[n k] |] eqn:Hx; [| discriminate].
    intros [= <-]. destruct (of_number_finite _ _ _ Hx) as [S1 S2]. cbv zeta in S1, S2.
    destruct (Z.lt_ge_cases (Z.abs (Z.quot n (2 ^ k))) (2 ^ 53)) as [Hlt | Hge].
    + left. apply S1. assumption.
    + right. split; [apply S2; assumption |]. split; [assumption | eauto].
  - destruct (BN.wf b) eqn:Hwf; [| discriminate].
    intros [= <-]. left. eauto.
Qed.

Lemma sol_data_of_BN a b :
  to_BN a = Ok b -> BN.wf b = true ->
  executeSolTransfer_instructionData a
  = Buffer.writeBigUInt64LE (2 :: 0 :: 0 :: 0 :: replicate 8 0) (BN.value b) 4.
Proof.
  intros E Hwf. unfold executeSolTransfer_instructionData.
  rewrite E. cbn [rbind]. rewrite (BigInt_toString b Hwf). reflexivity.
Qed.

Lemma token_data_of_BN a b :
  to_BN a = Ok b -> BN.wf b = true ->
  executeTokenTransfer_instructionData a
  = Buffer.writeBigUInt64LE (3 :: replicate 8 0) (BN.value b) 1.
Proof.
  intros E Hwf. unfold executeTokenTransfer_instructionData.
  rewrite E. cbn [rbind]. rewrite (BigInt_toString b Hwf). reflexivity.
Qed.

Lemma data_of_thrown a e :
  to_BN a = Throw e ->
  executeSolTransfer_instructionData a = Throw e
  /\ executeTokenTransfer_instructionData a = Throw e.
Proof.
  intros E. unfold executeSolTransfer_instructionData, executeTokenTransfer_instructionData.
  rewrite E. split; reflexivity.
Qed.

(** In range: both buffers are the specified layouts, unless bn.js refuses
    the number. *)
Lemma data_in_range a v :
  amount_integer_part a = Some v -> 0 <= v <= 2 ^ 64 - 1 ->
  (executeSolTransfer_instructionData a = Ok (native_transfer_encoding v)
   /\ executeTokenTransfer_instructionData a = Ok (token_transfer_encoding v))
  \/ (executeSolTransfer_instructionData a = Throw AssertionFailed
      /\ executeTokenTransfer_instructionData a = Throw AssertionFailed
      /\ 2 ^ 53 <= v /\ exists x, a = Number x).
Proof.
  intros Ha Hv. destruct (to_BN_integer_part a v Ha) as [(b & E & Hwf & Hb) | (E & Hbig & Hx)].
  - left. rewrite (sol_data_of_BN a b E Hwf), (token_data_of_BN a b E Hwf), Hb.
    rewrite writeBigUInt64LE_tail4, writeBigUInt64LE_tail1 by assumption.
    split; reflexivity.
  - right. destruct (data_of_thrown a _ E) as [-> ->].
    repeat split; try assumption. lia.
Qed.

(** Out of range: both are rejected, by bn.js or by the [Buffer] writer. *)
Lemma data_out_of_range a v :
  amount_integer_part a = Some v -> v < 0 \/ 2 ^ 64 - 1 < v ->
  exists e, (e = AssertionFailed \/ e = ERR_OUT_OF_RANGE)
            /\ executeSolTransfer_instructionData a = Throw e
            /\ executeTokenTransfer_instructionData a = Throw e.
Proof.
  intros Ha Hv. destruct (to_BN_integer_part a v Ha) as [(b & E & Hwf & Hb) | (E & _)].
  - exists ERR_OUT_OF_RANGE. split; [right; reflexivity |].
    rewrite (sol_data_of_BN a b E Hwf), (token_data_of_BN a b E Hwf), Hb.
    split; apply writeBigUInt64LE_range; assumption.
  - exists AssertionFailed. split; [left; reflexivity |].
    apply data_of_thrown. assumption.
Qed.

(** ** Computations that only lift a result *)

Lemma mbind_lift {A B} (r : Result A) (k : A -> M B) (f : A -> Result B) :
  (forall a w, k a w = lift (f a) w) ->
  forall w, mbind (lift r) k w = lift (rbind r f) w.
Proof.
  intros Hk w. unfold mbind, lift. cbn [result world network].
  destruct r as [a | e]; cbn [rbind]; [| reflexivity].
  rewrite Hk. reflexivity.
Qed.

Lemma build_transaction_fields p name args accounts rest tx :
  build_transaction p name args accounts rest = Ok tx ->
  feePayer tx = None /\ recentBlockhash tx = None
  /\ exists ix ks d,
       find_instruction (program_idl p) name = Some ix
       /\ accountsArray accounts (ix_accounts ix) = Ok ks
       /\ encode ix args = Ok d
       /\ instructions tx = [mkInstruction (ks ++ rest) (program_programId p) d].
Proof.
  unfold build_transaction.
  destruct (find_instruction (program_idl p) name) as [ix |]; [| discriminate].
  destruct (accountsArray accounts (ix_accounts ix)) as [ks |] eqn:Ek; [| discriminate].
  destruct (encode ix args) as [d |] eqn:Ed; [| discriminate].
  cbn [rbind]. intros [= <-]. cbn.
  split; [reflexivity |]. split; [reflexivity |].
  exists ix, ks, d. repeat split; assumption.
Qed.

Lemma lookup_pair (k1 k2 : string) (a b : PublicKey) :
  k1 <> k2 ->
  (<[k1 := a]> (<[k2 := b]> (∅ : gmap string PublicKey))) !! k1 = Some a
  /\ (<[k1 := a]> (<[k2 := b]> (∅ : gmap string PublicKey))) !! k2 = Some b.
Proof.
  intros Hne. split.
  - apply lookup_insert_eq.
  - rewrite lookup_insert_ne by assumption. apply lookup_insert_eq.
Qed.

Section Derivation.
Context `{Externals}.

Lemma createProgramAddressSync_nonce seeds b pid :
  createProgramAddressSync (seeds ++ [[b]]) pid
  = if existsb (fun seed => (MAX_SEED_LENGTH <? length seed)%nat) seeds
    then Throw TypeError
    else
      let h := sha256 (concat seeds ++ [b] ++ pid
                       ++ Buffer.from_string "ProgramDerivedAddress") in
      if isOnCurve h then Throw InvalidSeeds else Ok h.
Proof.
  unfold createProgramAddressSync.
  rewrite existsb_app. cbn [existsb length]. change (MAX_SEED_LENGTH <? 1)%nat with false.
  rewrite !orb_false_r. rewrite concat_app. cbn [concat].
  rewrite app_nil_r, <- !app_assoc. reflexivity.
Qed.

(** A nonce that is found is the largest one whose hash is off the curve. *)
Lemma find_nonce_found nonce : forall seeds pid addr bump,
  find_nonce nonce seeds pid = Ok (addr, bump) ->
  let h b := sha256 (concat seeds ++ [b] ++ pid
                     ++ Buffer.from_string "ProgramDerivedAddress") in
  1 <= bump <= Z.of_nat nonce
  /\ addr = h bump
  /\ isOnCurve addr = false
  /\ forall b', bump < b' <= Z.of_nat nonce -> isOnCurve (h b') = true.
Proof.
  induction nonce as [| n IH]; intros seeds pid addr bump; [discriminate |].
  cbn [find_nonce]. rewrite createProgramAddressSync_nonce.
  destruct (existsb _ seeds); [discriminate |].
  cbv zeta. destruct (isOnCurve (sha256 _)) eqn:Hc.
  - intros Hfound. destruct (IH _ _ _ _ Hfound) as (Hb & Ha & Hoff & Hhi).
    cbv zeta in Ha, Hhi.
    split; [lia |]. split; [exact Ha |]. split; [exact Hoff |].
    intros b' Hb'. destruct (Z.eq_dec b' (Z.of_nat (S n))) as [-> | Hne].
    + exact Hc.
    + apply Hhi. lia.
  - intros [= <- <-]. split; [lia |]. split; [reflexivity |]. split; [exact Hc |].
    intros b' Hb'. lia.
Qed.

(** A nonce is found as soon as one hash is off the curve. *)
Lemma find_nonce_finds nonce : forall seeds pid b,
  existsb (fun seed => (MAX_SEED_LENGTH <? length seed)%nat) seeds = false ->
  1 <= b <= Z.of_nat nonce ->
  isOnCurve (sha256 (concat seeds ++ [b] ++ pid
                     ++ Buffer.from_string "ProgramDerivedAddress")) = false ->
  is_Ok (find_nonce nonce seeds pid) = true.
Proof.
  induction nonce as [| n IH]; intros seeds pid b Hlen Hb Hoff; [lia |].
  cbn [find_nonce]. rewrite createProgramAddressSync_nonce, Hlen. cbv zeta.
  destruct (isOnCurve (sha256 (concat seeds ++ [Z.of_nat (S n)] ++ _))) eqn:Hc;
    [| reflexivity].
  apply (IH seeds pid b); try assumption.
  destruct (Z.eq_dec b (Z.of_nat (S n))) as [-> | Hne]; [congruence | lia].
Qed.

End Derivation.

(** ** The encodings of the two transfers *)

Lemma native_layout v :
  length (native_transfer_encoding v) = 12%nat
  /\ take 4 (native_transfer_encoding v) = [2; 0; 0; 0]
  /\ drop 4 (native_transfer_encoding v) = Buffer.le_bytes 8 v
  /\ Forall (fun b => 0 <= b < 256) (native_transfer_encoding v).
Proof.
  unfold native_transfer_encoding. repeat split; try reflexivity.
  apply Forall_app. split; apply le_bytes_range.
Qed.

Lemma token_layout v :
  length (token_transfer_encoding v) = 9%nat
  /\ take 1 (token_transfer_encoding v) = [3]
  /\ drop 1 (token_transfer_encoding v) = Buffer.le_bytes 8 v
  /\ Forall (fun b => 0 <= b < 256) (token_transfer_encoding v).
Proof.
  unfold token_transfer_encoding. repeat split; try reflexivity.
  apply Forall_app. split; [repeat constructor; lia | apply le_bytes_range].
Qed.

Lemma le_value_u64 v : 0 <= v <= 2 ^ 64 - 1 -> Buffer.le_value (Buffer.le_bytes 8 v) = v.
Proof. intros Hv. rewrite le_value_bytes. apply Z.mod_small. simpl. lia. Qed.

Lemma data_of_BN_in_range b v :
  BN.wf b = true -> BN.value b = v -> 0 <= v <= 2 ^ 64 - 1 ->
  executeSolTransfer_instructionData (BigNum b) = Ok (native_transfer_encoding v)
  /\ executeTokenTransfer_instructionData (BigNum b) = Ok (token_transfer_encoding v).
Proof.
  intros Hwf Hb Hv.
  destruct (data_in_range (BigNum b) v) as [Hok | (_ & _ & _ & x & Hx)];
    [simpl; rewrite Hwf, Hb; reflexivity | assumption | exact Hok | discriminate Hx].
Qed.

Lemma data_of_number_in_range x v :
  JS.to_integer x = Some v -> 0 <= v <= 2 ^ 64 - 1 ->
  (v < 2 ^ 53 ->
   executeSolTransfer_instructionData (Number x) = Ok (native_transfer_encoding v)
   /\ executeTokenTransfer_instructionData (Number x) = Ok (token_transfer_encoding v))
  /\ (2 ^ 53 <= v ->
      executeSolTransfer_instructionData (Number x) = Throw AssertionFailed
      /\ executeTokenTransfer_instructionData (Number x) = Throw AssertionFailed).
Proof.
  intros Hx Hv. destruct (of_number_integer x v Hx) as [S1 S2]. split.
  - intros Hlt. destruct S1 as (b & E & Hwf & Hb); [lia |].
    rewrite (sol_data_of_BN (Number x) b E Hwf), (token_data_of_BN (Number x) b E Hwf), Hb.
    rewrite writeBigUInt64LE_tail4, writeBigUInt64LE_tail1 by assumption.
    split; reflexivity.
  - intros Hge. apply data_of_thrown. simpl. apply S2. lia.
Qed.

(** ** The composer methods *)

Section Composers.
Context `{Externals}.

Lemma findSmartAccountPDA_run this owner w :
  findSmartAccountPDA this owner w
  = lift (findProgramAddressSync (smart_seeds owner) (program_programId (program this))) w.
Proof. reflexivity. Qed.

Lemma initialize_run this o w :
  initialize this o w
  = lift (pda <- findProgramAddressSync (smart_seeds (default (userPublicKey this) o))
                   (program_programId (program this)) ;;
          build_transaction (program this) "initialize" []
            (<["smartAccount" := fst pda]>
               (<["owner" := default (userPublicKey this) o]>
                  (<["systemProgram" := SystemProgram_programId]> ∅)))
            []) w.
Proof. unfold initialize, findSmartAccountPDA. apply mbind_lift. reflexivity. Qed.

Lemma by_owner_run this name args o w :
  (pda <~ findSmartAccountPDA this (default (userPublicKey this) o) ;;
   methods_transaction (program this) name args
     (<["smartAccount" := fst pda]> (<["owner" := default (userPublicKey this) o]> ∅)) []) w
  = lift (pda <- findProgramAddressSync (smart_seeds (default (userPublicKey this) o))
                   (program_programId (program this)) ;;
          build_transaction (program this) name args
            (<["smartAccount" := fst pda]>
               (<["owner" := default (userPublicKey this) o]> ∅))
            []) w.
Proof. unfold findSmartAccountPDA. apply mbind_lift. reflexivity. Qed.

Lemma executeSolTransfer_run this o d r a w :
  executeSolTransfer this o d r a w
  = lift (pda <- findProgramAddressSync (smart_seeds o) (program_programId (program this)) ;;
          instructionData <- executeSolTransfer_instructionData a ;;
          build_transaction (program this) "execute" [ArgBytes instructionData]
            (<["smartAccount" := fst pda]> (<["delegate" := d]> ∅))
            [ mkMeta SystemProgram_programId false false;
              mkMeta (fst pda) false true;
              mkMeta r false true ]) w.
Proof.
  unfold executeSolTransfer, findSmartAccountPDA.
  apply mbind_lift. intros pda w'. apply mbind_lift. reflexivity.
Qed.

Lemma executeTokenTransfer_run this o d f t a u w :
  executeTokenTransfer this o d f t a u w
  = lift (pda <- findProgramAddressSync (smart_seeds o) (program_programId (program this)) ;;
          instructionData <- executeTokenTransfer_instructionData a ;;
          build_transaction (program this) "execute" [ArgBytes instructionData]
            (<["smartAccount" := fst pda]> (<["delegate" := d]> ∅))
            [ mkMeta (if default false u then TOKEN_2022_PROGRAM_ID else TOKEN_PROGRAM_ID)
                false false;
              mkMeta f false true;
              mkMeta t false true;
              mkMeta (fst pda) false false ]) w.
Proof.
  unfold executeTokenTransfer, findSmartAccountPDA.
  apply mbind_lift. intros pda w'. apply mbind_lift. reflexivity.
Qed.

Lemma executeCustomInstruction_run this o d p b rest w :
  executeCustomInstruction this o d p b rest w
  = lift (pda <- findProgramAddressSync (smart_seeds o) (program_programId (program this)) ;;
          build_transaction (program this) "execute" [ArgBytes b]
            (<["smartAccount" := fst pda]> (<["delegate" := d]> ∅))
            (mkMeta p false false :: rest)) w.
Proof. unfold executeCustomInstruction, findSmartAccountPDA. apply mbind_lift. reflexivity. Qed.

(** Every composer call is the lifting of a result: it reads and writes
    nothing outside its arguments. *)
Lemma compose_lifts this c : exists r, forall w, compose this c w = lift r w.
Proof.
  destruct c; cbn [compose]; eexists; intros w.
  - apply initialize_run.
  - apply by_owner_run.
  - apply by_owner_run.
  - apply by_owner_run.
  - apply by_owner_run.
  - apply executeSolTransfer_run.
  - apply executeTokenTransfer_run.
  - apply executeCustomInstruction_run.
Qed.

Lemma compose_fields this c w tx :
  result (compose this c w) = Ok tx ->
  feePayer tx = None /\ recentBlockhash tx = None
  /\ exists i, instructions tx = [i].
Proof.
  assert (forall p name args accounts rest,
            build_transaction p name args accounts rest = Ok tx ->
            feePayer tx = None /\ recentBlockhash tx = None
            /\ exists i, instructions tx = [i]) as Hb.
  { intros p name args accounts rest E.
    destruct (build_transaction_fields _ _ _ _ _ _ E) as (F1 & F2 & ix & ks & d & _ & _ & _ & Ei).
    eauto. }
  destruct c; cbn [compose].
  - rewrite initialize_run. unfold lift. cbn [result].
    destruct (findProgramAddressSync _ _); cbn [rbind]; [apply Hb | discriminate].
  - unfold addDelegate. rewrite by_owner_run. unfold lift. cbn [result].
    destruct (findProgramAddressSync _ _); cbn [rbind]; [apply Hb | discriminate].
  - unfold removeDelegate. rewrite by_owner_run. unfold lift. cbn [result].
    destruct (findProgramAddressSync _ _); cbn [rbind]; [apply Hb | discriminate].
  - unfold pause. rewrite by_owner_run. unfold lift. cbn [result].
    destruct (findProgramAddressSync _ _); cbn [rbind]; [apply Hb | discriminate].
  - unfold unpause. rewrite by_owner_run. unfold lift. cbn [result].
    destruct (findProgramAddressSync _ _); cbn [rbind]; [apply Hb | discriminate].
  - rewrite executeSolTransfer_run. unfold lift. cbn [result].
    destruct (findProgramAddressSync _ _); cbn [rbind]; [| discriminate].
    destruct (executeSolTransfer_instructionData _); cbn [rbind]; [apply Hb | discriminate].
  - rewrite executeTokenTransfer_run. unfold lift. cbn [result].
    destruct (findProgramAddressSync _ _); cbn [rbind]; [| discriminate].
    destruct (executeTokenTransfer_instructionData _); cbn [rbind]; [apply Hb | discriminate].
  - rewrite executeCustomInstruction_run. unfold lift. cbn [result].
    destruct (findProgramAddressSync _ _); cbn [rbind]; [apply Hb | discriminate].
Qed.

End Composers.

(** ** Address derivation *)

Section Claims.
Context `{Externals}.

Lemma smart_preimage owner b pid :
  concat (smart_seeds owner) ++ [b] ++ pid ++ Buffer.from_string "ProgramDerivedAddress"
  = pda_preimage owner b pid.
Proof.
  unfold smart_seeds, pda_preimage. cbn [concat].
  rewrite app_nil_r, <- app_assoc. reflexivity.
Qed.

(** C4. Two invocations of [findSmartAccountPDA] with the same owner and
    the same program identifier, on any two instances and in any two states
    of the world, return the same (address, bump) pair or the same error,
    leave the world as it was and send no RPC request.  The pair returned is
    the canonical one: the largest bump in 1..255 whose hash is off the
    curve, with that hash as address; it is returned as soon as one exists. *)
Theorem findSmartAccountPDA_deterministic
    (this1 this2 : SmartAccountSDK) (owner : PublicKey) (w1 w2 : World) :
  program_programId (program this1) = program_programId (program this2) ->
  let pid := program_programId (program this1) in
  let o1 := findSmartAccountPDA this1 owner w1 in
  let o2 := findSmartAccountPDA this2 owner w2 in
  result o1 = result o2
  /\ world o1 = w1 /\ network o1 = [] /\ world o2 = w2 /\ network o2 = []
  /\ (forall addr bump, result o1 = Ok (addr, bump) ->
        1 <= bump <= 255
        /\ addr = sha256 (pda_preimage owner bump pid)
        /\ isOnCurve addr = false
        /\ forall b', bump < b' <= 255 ->
             isOnCurve (sha256 (pda_preimage owner b' pid)) = true)
  /\ ((length owner <= 32)%nat ->
      (exists b, 1 <= b <= 255
                 /\ isOnCurve (sha256 (pda_preimage owner b pid)) = false) ->
      is_Ok (result o1) = true).
Proof.
  intros Hpid pid o1 o2. subst o1 o2.
  rewrite !findSmartAccountPDA_run. unfold lift. cbn [result world network].
  rewrite <- Hpid. fold pid.
  split; [reflexivity |]. repeat (split; [reflexivity |]).
  split.
  - intros addr bump Hfound. unfold findProgramAddressSync in Hfound.
    destruct (find_nonce_found _ _ _ _ _ Hfound) as (Hb & Ha & Hoff & Hhi).
    cbv zeta in Ha, Hhi. rewrite smart_preimage in Ha.
    split; [exact Hb |]. split; [exact Ha |]. split; [exact Hoff |].
    intros b' Hb'. rewrite <- smart_preimage. apply Hhi. exact Hb'.
  - intros Hlen (b & Hb & Hoff). unfold findProgramAddressSync.
    apply (find_nonce_finds 255 (smart_seeds owner) pid b).
    + unfold smart_seeds. cbn [existsb]. rewrite orb_false_r.
      apply orb_false_intro; [reflexivity |].
      destruct (Nat.ltb_spec MAX_SEED_LENGTH (length owner)) as [Hgt | Hle];
        [| reflexivity].
      unfold MAX_SEED_LENGTH in Hgt. lia.
    + exact Hb.
    + rewrite smart_preimage. exact Hoff.
Qed.

(** ** Account lists *)

Lemma lookup_triple (k1 k2 k3 : string) (a b c : PublicKey) :
  k1 <> k2 -> k1 <> k3 -> k2 <> k3 ->
  let m := <[k1 := a]> (<[k2 := b]> (<[k3 := c]> (∅ : gmap string PublicKey))) in
  m !! k1 = Some a /\ m !! k2 = Some b /\ m !! k3 = Some c.
Proof.
  intros H12 H13 H23 m. subst m. repeat split.
  - apply lookup_insert_eq.
  - rewrite lookup_insert_ne by assumption. apply lookup_insert_eq.
  - rewrite !lookup_insert_ne by assumption. apply lookup_insert_eq.
Qed.

(** C5. With the account schema the specification gives for [initialize],
    [initialize(owner)] returns a transaction with a single instruction
    whose accounts are, in order, the smart-account address derived from the
    seed ["smart"] and the owner (writable, not a signer), the owner
    (signer) and the system program (read-only, not a signer); it fails
    only when the address derivation does. *)
Theorem initialize_account_list
    (this : SmartAccountSDK) (pid : PublicKey) (disc : string -> Buffer.t)
    (uw : string -> string -> bool) (owner : PublicKey) (w : World) :
  program_idl (program this) = smart_account_idl pid disc uw ->
  initialize this (Some owner) w
  = lift (pda <- findProgramAddressSync (smart_seeds owner) pid ;;
          Ok (mkTransaction None None
                [ mkInstruction
                    [ mkMeta (fst pda) false true;
                      mkMeta owner true (uw "initialize" "owner");
                      mkMeta SystemProgram_programId false false ]
                    pid (disc "initialize") ])) w.
Proof.
  intros Hidl. rewrite initialize_run. unfold lift. f_equal.
  change (default (userPublicKey this) (Some owner)) with owner.
  assert (program_programId (program this) = pid) as ->
    by (unfold program_programId; rewrite Hidl; reflexivity).
  destruct (findProgramAddressSync _ _) as [pda | e]; cbn [rbind]; [| reflexivity].
  unfold build_transaction. rewrite Hidl.
  change (find_instruction (smart_account_idl pid disc uw) "initialize")
    with (Some (mkIdlInstruction "initialize" (disc "initialize")
                  [ mkIdlAccount "smartAccount" true false;
                    mkIdlAccount "owner" (uw "initialize" "owner") true;
                    mkIdlAccount "systemProgram" false false ])).
  cbn [accountsArray ix_accounts acc_name signer writable].
  destruct (lookup_triple "smartAccount" "owner" "systemProgram"
              (fst pda) owner SystemProgram_programId) as (-> & -> & ->);
    try discriminate.
  cbn [rbind]. unfold encode. cbn [map concat length discriminator].
  change (1000 <? 0)%nat with false. cbn [rbind].
  unfold Transaction_add, Transaction_new, program_programId. cbn.
  rewrite Hidl, app_nil_r. reflexivity.
Qed.


Lemma encode_bytes ix (d : Buffer.t) n :
  length d = n -> (n <= 996)%nat ->
  encode ix [ArgBytes d]
  = Ok (discriminator ix ++ Buffer.le_bytes 4 (Z.of_nat n) ++ d).
Proof.
  intros Hn Hle. unfold encode. cbn [map concat borsh].
  rewrite app_nil_r, length_app, le_bytes_length, Hn.
  destruct (Nat.ltb_spec 1000 (4 + n)) as [Hgt | _]; [lia | reflexivity].
Qed.

Lemma execute_transaction (p : Program) ix w1 s1 w2 (pda d : PublicKey)
    (payload : Buffer.t) n rest :
  find_instruction (program_idl p) "execute" = Some ix ->
  ix_accounts ix = [mkIdlAccount "smartAccount" w1 s1; mkIdlAccount "delegate" w2 true] ->
  length payload = n -> (n <= 996)%nat ->
  build_transaction p "execute" [ArgBytes payload]
    (<["smartAccount" := pda]> (<["delegate" := d]> ∅)) rest
  = Ok (mkTransaction None None
          [ mkInstruction ([mkMeta pda s1 w1; mkMeta d true w2] ++ rest)
              (program_programId p)
              (discriminator ix ++ Buffer.le_bytes 4 (Z.of_nat n) ++ payload) ]).
Proof.
  intros Hfind Hacc Hn Hle. unfold build_transaction. rewrite Hfind, Hacc.
  cbn [accountsArray acc_name signer writable].
  destruct (lookup_pair "smartAccount" "delegate" pda d) as [-> ->]; [discriminate |].
  cbn [rbind]. rewrite (encode_bytes ix payload n Hn Hle). reflexivity.
Qed.

Lemma execute_data (p : Program) (payload : Buffer.t) n ctx rest tx :
  length payload = n -> (n <= 996)%nat ->
  build_transaction p "execute" [ArgBytes payload] ctx rest = Ok tx ->
  exists ix ks,
    find_instruction (program_idl p) "execute" = Some ix
    /\ instructions tx
       = [ mkInstruction (ks ++ rest) (program_programId p)
             (discriminator ix ++ Buffer.le_bytes 4 (Z.of_nat n) ++ payload) ].
Proof.
  intros Hn Hle E.
  destruct (build_transaction_fields _ _ _ _ _ _ E)
    as (_ & _ & ix & ks & d & Hfind & _ & Henc & Hi).
  rewrite (encode_bytes ix payload n Hn Hle) in Henc. injection Henc as <-.
  exists ix, ks. split; assumption.
Qed.

(** C1, as amended. For every amount [v] in [0, 2^64-1], supplied as a
    [BN] or as a [number] below [2^53], [executeSolTransfer] builds the
    12-byte buffer made of the selector 2 in 4 little-endian bytes followed
    by [v] in 8 little-endian bytes, and hands exactly that buffer to the
    method builder as the argument of [execute]: the data of the instruction
    of a returned transaction is the discriminator, the length 12 and that
    buffer.  For 1_000_000_000 the bytes are
    02 00 00 00 00 CA 9A 3B 00 00 00 00. *)
Theorem native_transfer_encoding_correct
    (this : SmartAccountSDK) (smartAccountOwner delegate recipient : PublicKey)
    (lamports : Amount) (v : Z) (w : World) :
  0 <= v <= 2 ^ 64 - 1 ->
  amount_integer lamports = Some v ->
  (forall x, lamports = Number x -> v < 2 ^ 53) ->
  result (executeSolTransfer this smartAccountOwner delegate recipient lamports w)
  = (pda <- findProgramAddressSync (smart_seeds smartAccountOwner)
              (program_programId (program this)) ;;
     build_transaction (program this) "execute"
       [ArgBytes (native_transfer_encoding v)]
       (<["smartAccount" := fst pda]> (<["delegate" := delegate]> ∅))
       [ mkMeta SystemProgram_programId false false;
         mkMeta (fst pda) false true;
         mkMeta recipient false true ])
  /\ (forall tx,
        result (executeSolTransfer this smartAccountOwner delegate recipient lamports w)
        = Ok tx ->
        exists ix i,
          find_instruction (program_idl (program this)) "execute" = Some ix
          /\ instructions tx = [i]
          /\ data i = discriminator ix ++ Buffer.le_bytes 4 12
                      ++ native_transfer_encoding v)
  /\ executeSolTransfer_instructionData lamports = Ok (native_transfer_encoding v)
  /\ length (native_transfer_encoding v) = 12%nat
  /\ take 4 (native_transfer_encoding v) = [2; 0; 0; 0]
  /\ drop 4 (native_transfer_encoding v) = Buffer.le_bytes 8 v
  /\ Buffer.le_value (drop 4 (native_transfer_encoding v)) = v
  /\ Forall (fun b => 0 <= b < 256) (native_transfer_encoding v)
  /\ (v = 1000000000 ->
      native_transfer_encoding v = [2; 0; 0; 0; 0; 202; 154; 59; 0; 0; 0; 0]).
Proof.
  intros Hv Ha Hnum. destruct (native_layout v) as (L1 & L2 & L3 & L4).
  assert (executeSolTransfer_instructionData lamports = Ok (native_transfer_encoding v))
    as Hdata.
  { apply amount_integer_is_part in Ha.
    destruct (data_in_range lamports v Ha Hv) as [[E _] | (_ & _ & Hbig & x & ->)];
      [exact E |].
    specialize (Hnum x eq_refl). lia. }
  assert (result (executeSolTransfer this smartAccountOwner delegate recipient lamports w)
          = (pda <- findProgramAddressSync (smart_seeds smartAccountOwner)
                      (program_programId (program this)) ;;
             build_transaction (program this) "execute"
               [ArgBytes (native_transfer_encoding v)]
               (<["smartAccount" := fst pda]> (<["delegate" := delegate]> ∅))
               [ mkMeta SystemProgram_programId false false;
                 mkMeta (fst pda) false true;
                 mkMeta recipient false true ])) as Hrun.
  { rewrite executeSolTransfer_run. unfold lift. cbn [result].
    destruct (findProgramAddressSync _ _); cbn [rbind]; [| reflexivity].
    rewrite Hdata. reflexivity. }
  split; [exact Hrun |]. split.
  { intros tx E. rewrite Hrun in E.
    destruct (findProgramAddressSync _ _) as [pda | e]; [| discriminate].
    cbn [rbind] in E.
    destruct (execute_data _ _ 12%nat _ _ _ L1 ltac:(lia) E) as (ix & ks & Hfind & Hi).
    exists ix. eexists. split; [exact Hfind |]. split; [exact Hi | reflexivity]. }
  split; [exact Hdata |].
  split; [exact L1 |]. split; [exact L2 |]. split; [exact L3 |].
  split; [rewrite L3; apply le_value_u64; assumption |].
  split; [exact L4 |].
  intros ->. reflexivity.
Qed.

(** C2, as amended. For every amount [v] in [0, 2^64-1], supplied as a
    [BN] or as a [number] below [2^53], [executeTokenTransfer] builds the
    9-byte buffer made of the selector byte 3 followed by [v] in 8
    little-endian bytes, and hands exactly that buffer to the method builder
    as the argument of [execute]: the data of the instruction of a returned
    transaction is the discriminator, the length 9 and that buffer.  For
    5_000_000 the bytes are 03 40 4B 4C 00 00 00 00 00. *)
Theorem token_transfer_encoding_correct
    (this : SmartAccountSDK)
    (smartAccountOwner delegate fromTokenAccount toTokenAccount : PublicKey)
    (amount : Amount) (useToken2022 : option bool) (v : Z) (w : World) :
  0 <= v <= 2 ^ 64 - 1 ->
  amount_integer amount = Some v ->
  (forall x, amount = Number x -> v < 2 ^ 53) ->
  result (executeTokenTransfer this smartAccountOwner delegate fromTokenAccount
            toTokenAccount amount useToken2022 w)
  = (pda <- findProgramAddressSync (smart_seeds smartAccountOwner)
              (program_programId (program this)) ;;
     build_transaction (program this) "execute"
       [ArgBytes (token_transfer_encoding v)]
       (<["smartAccount" := fst pda]> (<["delegate" := delegate]> ∅))
       [ mkMeta (if default false useToken2022
                 then TOKEN_2022_PROGRAM_ID else TOKEN_PROGRAM_ID) false false;
         mkMeta fromTokenAccount false true;
         mkMeta toTokenAccount false true;
         mkMeta (fst pda) false false ])
  /\ (forall tx,
        result (executeTokenTransfer this smartAccountOwner delegate fromTokenAccount
                  toTokenAccount amount useToken2022 w) = Ok tx ->
        exists ix i,
          find_instruction (program_idl (program this)) "execute" = Some ix
          /\ instructions tx = [i]
          /\ data i = discriminator ix ++ Buffer.le_bytes 4 9
                      ++ token_transfer_encoding v)
  /\ executeTokenTransfer_instructionData amount = Ok (token_transfer_encoding v)
  /\ length (token_transfer_encoding v) = 9%nat
  /\ take 1 (token_transfer_encoding v) = [3]
  /\ drop 1 (token_transfer_encoding v) = Buffer.le_bytes 8 v
  /\ Buffer.le_value (drop 1 (token_transfer_encoding v)) = v
  /\ Forall (fun b => 0 <= b < 256) (token_transfer_encoding v)
  /\ (v = 5000000 ->
      token_transfer_encoding v = [3; 64; 75; 76; 0; 0; 0; 0; 0]).
Proof.
  intros Hv Ha Hnum. destruct (token_layout v) as (L1 & L2 & L3 & L4).
  assert (executeTokenTransfer_instructionData amount = Ok (token_transfer_encoding v))
    as Hdata.
  { apply amount_integer_is_part in Ha.
    destruct (data_in_range amount v Ha Hv) as [[_ E] | (_ & _ & Hbig & x & ->)];
      [exact E |].
    specialize (Hnum x eq_refl). lia. }
  assert (result (executeTokenTransfer this smartAccountOwner delegate fromTokenAccount
                    toTokenAccount amount useToken2022 w)
          = (pda <- findProgramAddressSync (smart_seeds smartAccountOwner)
                      (program_programId (program this)) ;;
             build_transaction (program this) "execute"
               [ArgBytes (token_transfer_encoding v)]
               (<["smartAccount" := fst pda]> (<["delegate" := delegate]> ∅))
               [ mkMeta (if default false useToken2022
                         then TOKEN_2022_PROGRAM_ID else TOKEN_PROGRAM_ID) false false;
                 mkMeta fromTokenAccount false true;
                 mkMeta toTokenAccount false true;
                 mkMeta (fst pda) false false ])) as Hrun.
  { rewrite executeTokenTransfer_run. unfold lift. cbn [result].
    destruct (findProgramAddressSync _ _); cbn [rbind]; [| reflexivity].
    rewrite Hdata. reflexivity. }
  split; [exact Hrun |]. split.
  { intros tx E. rewrite Hrun in E.
    destruct (findProgramAddressSync _ _) as [pda | e]; [| discriminate].
    cbn [rbind] in E.
    destruct (execute_data _ _ 9%nat _ _ _ L1 ltac:(lia) E) as (ix & ks & Hfind & Hi).
    exists ix. eexists. split; [exact Hfind |]. split; [exact Hi | reflexivity]. }
  split; [exact Hdata |].
  split; [exact L1 |]. split; [exact L2 |]. split; [exact L3 |].
  split; [rewrite L3; apply le_value_u64; assumption |].
  split; [exact L4 |].
  intros ->. reflexivity.
Qed.

(** C6. When the IDL lists the core pair of [execute] (the smart account,
    then the delegate as signer), [executeSolTransfer] with an in-range
    amount returns a transaction whose instruction lists, after the core
    pair, exactly the system program (read-only), the smart-account address
    (writable) and the recipient (writable), in that order; it fails only
    when the address derivation does. *)
Theorem executeSolTransfer_account_list
    (this : SmartAccountSDK) (smartAccountOwner delegate recipient : PublicKey)
    (lamports : Amount) (v : Z) (w : World)
    (ix : IdlInstruction) (w1 s1 w2 : bool) :
  find_instruction (program_idl (program this)) "execute" = Some ix ->
  ix_accounts ix = [mkIdlAccount "smartAccount" w1 s1; mkIdlAccount "delegate" w2 true] ->
  amount_integer lamports = Some v ->
  0 <= v <= 2 ^ 64 - 1 ->
  (forall x, lamports = Number x -> v < 2 ^ 53) ->
  executeSolTransfer this smartAccountOwner delegate recipient lamports w
  = lift (pda <- findProgramAddressSync (smart_seeds smartAccountOwner)
                   (program_programId (program this)) ;;
          Ok (mkTransaction None None
                [ mkInstruction
                    ([ mkMeta (fst pda) s1 w1; mkMeta delegate true w2 ]
                     ++ [ mkMeta SystemProgram_programId false false;
                          mkMeta (fst pda) false true;
                          mkMeta recipient false true ])
                    (program_programId (program this))
                    (discriminator ix ++ Buffer.le_bytes 4 12
                     ++ native_transfer_encoding v) ])) w.
Proof.
  intros Hfind Hacc Ha Hv Hnum. rewrite executeSolTransfer_run. unfold lift. f_equal.
  destruct (findProgramAddressSync _ _) as [pda | e]; cbn [rbind]; [| reflexivity].
  apply amount_integer_is_part in Ha.
  destruct (data_in_range lamports v Ha Hv) as [[-> _] | (_ & _ & Hbig & x & ->)].
  - cbn [rbind].
    apply (execute_transaction _ ix w1 s1 w2 _ _ _ 12%nat); try assumption.
    + apply native_layout.
    + lia.
  - specialize (Hnum x eq_refl). lia.
Qed.

(** C7. When the IDL lists the core pair of [execute],
    [executeTokenTransfer] with an in-range amount returns a transaction
    whose instruction lists, after the core pair, exactly the token program
    (read-only), the source account (writable), the destination account
    (writable) and the smart-account address (read-only), in that order; the
    token program is Token-2022 when the flag is set, and the standard token
    program when it is unset or omitted. *)
Theorem executeTokenTransfer_account_list
    (this : SmartAccountSDK)
    (smartAccountOwner delegate fromTokenAccount toTokenAccount : PublicKey)
    (amount : Amount) (useToken2022 : option bool) (v : Z) (w : World)
    (ix : IdlInstruction) (w1 s1 w2 : bool) :
  find_instruction (program_idl (program this)) "execute" = Some ix ->
  ix_accounts ix = [mkIdlAccount "smartAccount" w1 s1; mkIdlAccount "delegate" w2 true] ->
  amount_integer amount = Some v ->
  0 <= v <= 2 ^ 64 - 1 ->
  (forall x, amount = Number x -> v < 2 ^ 53) ->
  executeTokenTransfer this smartAccountOwner delegate fromTokenAccount toTokenAccount
    amount useToken2022 w
  = lift (pda <- findProgramAddressSync (smart_seeds smartAccountOwner)
                   (program_programId (program this)) ;;
          Ok (mkTransaction None None
                [ mkInstruction
                    ([ mkMeta (fst pda) s1 w1; mkMeta delegate true w2 ]
                     ++ [ mkMeta (match useToken2022 with
                                  | Some true => TOKEN_2022_PROGRAM_ID
                                  | Some false | None => TOKEN_PROGRAM_ID
                                  end) false false;
                          mkMeta fromTokenAccount false true;
                          mkMeta toTokenAccount false true;
                          mkMeta (fst pda) false false ])
                    (program_programId (program this))
                    (discriminator ix ++ Buffer.le_bytes 4 9
                     ++ token_transfer_encoding v) ])) w.
Proof.
  intros Hfind Hacc Ha Hv Hnum. rewrite executeTokenTransfer_run. unfold lift. f_equal.
  destruct (findProgramAddressSync _ _) as [pda | e]; cbn [rbind]; [| reflexivity].
  apply amount_integer_is_part in Ha.
  destruct (data_in_range amount v Ha Hv) as [[_ ->] | (_ & _ & Hbig & x & ->)].
  - cbn [rbind].
    replace (if default false useToken2022 then TOKEN_2022_PROGRAM_ID else TOKEN_PROGRAM_ID)
      with (match useToken2022 with
            | Some true => TOKEN_2022_PROGRAM_ID
            | Some false | None => TOKEN_PROGRAM_ID
            end) by (destruct useToken2022 as [[] |]; reflexivity).
    apply (execute_transaction _ ix w1 s1 w2 _ _ _ 9%nat); try assumption.
    + apply token_layout.
    + lia.
  - specialize (Hnum x eq_refl). lia.
Qed.

(** C8. Whatever composer method is called, with whatever arguments, a
    transaction it returns has no fee payer and no recent blockhash. *)
Theorem composers_leave_fee_payer_and_blockhash_unset
    (this : SmartAccountSDK) (c : ComposerCall) (w : World) (tx : Transaction) :
  result (compose this c w) = Ok tx ->
  feePayer tx = None /\ recentBlockhash tx = None.
Proof.
  intros E. destruct (compose_fields this c w tx E) as (F1 & F2 & _).
  split; assumption.
Qed.

(** C9, as amended. No operation of an instance changes anything outside
    it: the composer methods and [findSmartAccountPDA] leave the world as it
    was and send no RPC request, and [getSmartAccountState] only reads.
    Construction does change the world: it registers the provider of the new
    instance, which cannot sign, as anchor's current provider; it changes
    nothing else and sends no request. *)
Theorem operations_leave_the_world_unchanged (this : SmartAccountSDK) :
  (forall c w, world (compose this c w) = w /\ network (compose this c w) = [])
  /\ (forall o w, world (findSmartAccountPDA this o w) = w
                  /\ network (findSmartAccountPDA this o w) = [])
  /\ (forall a w, world (getSmartAccountState this a w) = w)
  /\ (forall conn user w,
        let o := constructor conn user w in
        let p := mkProvider conn (mkWallet user false) "confirmed" in
        result o = Ok (mkSDK (mkProgram idl p) p conn user)
        /\ anchor_provider (world o) = Some p
        /\ chain (world o) = chain w
        /\ network o = []).
Proof.
  split; [| split; [| split]].
  - intros c w. destruct (compose_lifts this c) as [r Hr]. rewrite Hr. split; reflexivity.
  - intros o w. split; reflexivity.
  - intros a w. reflexivity.
  - intros conn user w. cbv zeta. repeat split; reflexivity.
Qed.


(** C10, as amended. For a u64 value [v] below [2^53], supplying [v] as a
    [number] or as a [BN] gives the same instruction data and the same
    outcome of [executeSolTransfer] and of [executeTokenTransfer].  From
    [2^53] on the [number] form is refused by the assertion of bn.js, while
    the [BN] form is encoded. *)
Theorem number_and_BN_amounts_agree (v : Z) (x : JS.number) (b : BN.t) :
  0 <= v <= 2 ^ 64 - 1 ->
  JS.to_integer x = Some v ->
  BN.wf b = true ->
  BN.value b = v ->
  (v < 2 ^ 53 ->
   executeSolTransfer_instructionData (Number x) = Ok (native_transfer_encoding v)
   /\ executeSolTransfer_instructionData (BigNum b) = Ok (native_transfer_encoding v)
   /\ executeTokenTransfer_instructionData (Number x) = Ok (token_transfer_encoding v)
   /\ executeTokenTransfer_instructionData (BigNum b) = Ok (token_transfer_encoding v)
   /\ (forall this o d r w,
         executeSolTransfer this o d r (Number x) w
         = executeSolTransfer this o d r (BigNum b) w)
   /\ (forall this o d f t u w,
         executeTokenTransfer this o d f t (Number x) u w
         = executeTokenTransfer this o d f t (BigNum b) u w))
  /\ (2 ^ 53 <= v ->
      executeSolTransfer_instructionData (Number x) = Throw AssertionFailed
      /\ executeTokenTransfer_instructionData (Number x) = Throw AssertionFailed
      /\ executeSolTransfer_instructionData (BigNum b) = Ok (native_transfer_encoding v)
      /\ executeTokenTransfer_instructionData (BigNum b) = Ok (token_transfer_encoding v)).
Proof.
  intros Hv Hx Hwf Hb.
  destruct (data_of_BN_in_range b v Hwf Hb Hv) as [B1 B2].
  destruct (data_of_number_in_range x v Hx Hv) as [Hsmall Hbig].
  split.
  - intros Hlt. destruct (Hsmall Hlt) as [N1 N2].
    repeat split; try assumption.
    + intros this o d r w. rewrite !executeSolTransfer_run, N1, B1. reflexivity.
    + intros this o d f t u w. rewrite !executeTokenTransfer_run, N2, B2. reflexivity.
  - intros Hge. destruct (Hbig Hge) as [N1 N2]. repeat split; assumption.
Qed.

End Claims.

(** ** The statements at concrete inputs *)

Lemma native_transfer_encoding_witness :
  result (executeSolTransfer demo_sdk demo_user demo_delegate demo_recipient
            (BigNum (BN.of_Z 1000000000)) demo_world)
  = (pda <- findProgramAddressSync (smart_seeds demo_user) demo_programId ;;
     build_transaction (program demo_sdk) "execute"
       [ArgBytes [2; 0; 0; 0; 0; 202; 154; 59; 0; 0; 0; 0]]
       (<["smartAccount" := fst pda]> (<["delegate" := demo_delegate]> ∅))
       [ mkMeta SystemProgram_programId false false;
         mkMeta (fst pda) false true;
         mkMeta demo_recipient false true ]).
Proof.
  destruct (native_transfer_encoding_correct demo_sdk demo_user demo_delegate
              demo_recipient (BigNum (BN.of_Z 1000000000)) 1000000000 demo_world
              ltac:(lia) eq_refl ltac:(intros x Hx; discriminate Hx)) as (E & _).
  exact E.
Defined.

(** C1 fails as stated at [v = 2^53] given as a [number]: the amount is in
    [0, 2^64-1], and [executeSolTransfer] produces no encoding but fails on
    the assertion of bn.js. *)
Lemma unsafe_number_gets_no_native_encoding :
  JS.is_binary64 two_53 = true
  /\ JS.to_integer two_53 = Some (2 ^ 53)
  /\ 0 <= 2 ^ 53 <= 2 ^ 64 - 1
  /\ executeSolTransfer_instructionData (Number two_53) = Throw AssertionFailed
  /\ result (executeSolTransfer demo_sdk demo_user demo_delegate demo_recipient
               (Number two_53) demo_world) = Throw AssertionFailed.
Proof.
  split; [reflexivity |]. split; [reflexivity |]. split; [lia |].
  split; vm_compute; reflexivity.
Qed.

Lemma token_transfer_encoding_witness :
  result (executeTokenTransfer demo_sdk demo_user demo_delegate demo_user
            demo_recipient (BigNum (BN.of_Z 5000000)) None demo_world)
  = (pda <- findProgramAddressSync (smart_seeds demo_user) demo_programId ;;
     build_transaction (program demo_sdk) "execute"
       [ArgBytes [3; 64; 75; 76; 0; 0; 0; 0; 0]]
       (<["smartAccount" := fst pda]> (<["delegate" := demo_delegate]> ∅))
       [ mkMeta TOKEN_PROGRAM_ID false false;
         mkMeta demo_user false true;
         mkMeta demo_recipient false true;
         mkMeta (fst pda) false false ]).
Proof.
  destruct (token_transfer_encoding_correct demo_sdk demo_user demo_delegate demo_user
              demo_recipient (BigNum (BN.of_Z 5000000)) None 5000000 demo_world
              ltac:(lia) eq_refl ltac:(intros x Hx; discriminate Hx)) as (E & _).
  exact E.
Defined.

(** C2 fails as stated at [v = 2^60] given as a [number]: the amount is in
    [0, 2^64-1], and [executeTokenTransfer] produces no encoding but fails
    on the assertion of bn.js. *)
Lemma large_number_gets_no_token_encoding :
  JS.is_binary64 two_60 = true
  /\ JS.to_integer two_60 = Some (2 ^ 60)
  /\ 0 <= 2 ^ 60 <= 2 ^ 64 - 1
  /\ executeTokenTransfer_instructionData (Number two_60) = Throw AssertionFailed
  /\ result (executeTokenTransfer demo_sdk demo_user demo_delegate demo_user
               demo_recipient (Number two_60) None demo_world)
     = Throw AssertionFailed.
Proof.
  split; [reflexivity |]. split; [reflexivity |]. split; [lia |].
  split; vm_compute; reflexivity.
Qed.



Lemma findSmartAccountPDA_deterministic_witness :
  result (findSmartAccountPDA demo_sdk demo_user demo_world)
  = result (findSmartAccountPDA demo_sdk demo_user
              (world (constructor demo_connection demo_delegate demo_world)))
  /\ is_Ok (result (findSmartAccountPDA demo_sdk demo_user demo_world)) = true.
Proof.
  destruct (findSmartAccountPDA_deterministic demo_sdk demo_sdk demo_user demo_world
              (world (constructor demo_connection demo_delegate demo_world)) eq_refl)
    as (Hsame & _ & _ & _ & _ & _ & Hfinds).
  split; [exact Hsame |].
  apply Hfinds; [vm_compute; lia |].
  exists 254. split; [lia | reflexivity].
Defined.

Lemma initialize_account_list_witness :
  initialize demo_sdk (Some demo_user) demo_world
  = lift (pda <- findProgramAddressSync (smart_seeds demo_user) demo_programId ;;
          Ok (mkTransaction None None
                [ mkInstruction
                    [ mkMeta (fst pda) false true;
                      mkMeta demo_user true (demo_writable "initialize" "owner");
                      mkMeta SystemProgram_programId false false ]
                    demo_programId (demo_disc "initialize") ])) demo_world.
Proof.
  apply (initialize_account_list demo_sdk demo_programId demo_disc demo_writable
           demo_user demo_world).
  reflexivity.
Defined.

Lemma executeSolTransfer_account_list_witness :
  result (executeSolTransfer demo_sdk demo_user demo_delegate demo_recipient
            (Number (JS.of_Z 1000000000)) demo_world)
  = (pda <- findProgramAddressSync (smart_seeds demo_user) demo_programId ;;
     Ok (mkTransaction None None
           [ mkInstruction
               [ mkMeta (fst pda) false false;
                 mkMeta demo_delegate true false;
                 mkMeta (replicate 32 0) false false;
                 mkMeta (fst pda) false true;
                 mkMeta demo_recipient false true ]
               demo_programId
               (demo_disc "execute" ++ [12; 0; 0; 0]
                ++ [2; 0; 0; 0; 0; 202; 154; 59; 0; 0; 0; 0]) ])).
Proof.
  rewrite (executeSolTransfer_account_list demo_sdk demo_user demo_delegate demo_recipient
             (Number (JS.of_Z 1000000000)) 1000000000 demo_world
             demo_execute false false false).
  - reflexivity.
  - reflexivity.
  - reflexivity.
  - reflexivity.
  - lia.
  - intros x _. lia.
Defined.

Lemma executeTokenTransfer_account_list_witness :
  result (executeTokenTransfer demo_sdk demo_user demo_delegate demo_user demo_recipient
            (BigNum (BN.of_Z 5000000)) (Some true) demo_world)
  = (pda <- findProgramAddressSync (smart_seeds demo_user) demo_programId ;;
     Ok (mkTransaction None None
           [ mkInstruction
               [ mkMeta (fst pda) false false;
                 mkMeta demo_delegate true false;
                 mkMeta (replicate 32 7) false false;
                 mkMeta demo_user false true;
                 mkMeta demo_recipient false true;
                 mkMeta (fst pda) false false ]
               demo_programId
               (demo_disc "execute" ++ [9; 0; 0; 0]
                ++ [3; 64; 75; 76; 0; 0; 0; 0; 0]) ])).
Proof.
  rewrite (executeTokenTransfer_account_list demo_sdk demo_user demo_delegate demo_user
             demo_recipient (BigNum (BN.of_Z 5000000)) (Some true) 5000000 demo_world
             demo_execute false false false).
  - reflexivity.
  - reflexivity.
  - reflexivity.
  - reflexivity.
  - lia.
  - intros x Hx. discriminate Hx.
Defined.

Lemma composers_leave_fee_payer_and_blockhash_unset_witness :
  match result (compose demo_sdk (Initialize None) demo_world) with
  | Ok tx => feePayer tx = None /\ recentBlockhash tx = None
  | Throw _ => False
  end.
Proof.
  destruct (result (compose demo_sdk (Initialize None) demo_world)) as [tx | e] eqn:E.
  - apply (composers_leave_fee_payer_and_blockhash_unset demo_sdk (Initialize None)
             demo_world tx E).
  - vm_compute in E. discriminate E.
Defined.

(** C9 fails as stated: constructing an instance replaces anchor's current
    provider, which is state outside the instance. *)
Lemma construction_sets_the_global_provider :
  anchor_provider demo_world = None
  /\ anchor_provider (world (constructor demo_connection demo_user demo_world))
     = Some (mkProvider demo_connection (mkWallet demo_user false) "confirmed")
  /\ world (constructor demo_connection demo_user demo_world) <> demo_world.
Proof.
  split; [reflexivity |]. split; [reflexivity |].
  intros E. apply (f_equal anchor_provider) in E. discriminate E.
Qed.

Lemma number_and_BN_amounts_agree_witness :
  executeSolTransfer demo_sdk demo_user demo_delegate demo_recipient
    (Number (JS.of_Z 1000000000)) demo_world
  = executeSolTransfer demo_sdk demo_user demo_delegate demo_recipient
      (BigNum (BN.of_Z 1000000000)) demo_world.
Proof.
  destruct (number_and_BN_amounts_agree 1000000000 (JS.of_Z 1000000000)
              (BN.of_Z 1000000000) ltac:(lia) eq_refl eq_refl eq_refl)
    as [Hsmall _].
  destruct (Hsmall ltac:(lia)) as (_ & _ & _ & _ & Hsol & _).
  apply Hsol.
Defined.

(** C10 fails as stated at [v = 2^53]: the [number] 9007199254740992 is
    refused by [new BN], the [BN] of the same value is encoded. *)
Lemma unsafe_number_is_refused :
  JS.is_binary64 two_53 = true
  /\ JS.to_integer two_53 = Some (2 ^ 53)
  /\ BN.value (BN.of_Z (2 ^ 53)) = 2 ^ 53
  /\ executeSolTransfer_instructionData (Number two_53) = Throw AssertionFailed
  /\ executeSolTransfer_instructionData (BigNum (BN.of_Z (2 ^ 53)))
     = Ok [2; 0; 0; 0; 0; 0; 0; 0; 0; 0; 32; 0]
  /\ executeTokenTransfer_instructionData (Number two_53) = Throw AssertionFailed
  /\ executeTokenTransfer_instructionData (BigNum (BN.of_Z (2 ^ 53)))
     = Ok [3; 0; 0; 0; 0; 0; 0; 32; 0]
  /\ result (executeSolTransfer demo_sdk demo_user demo_delegate demo_recipient
               (Number two_53) demo_world)
     <> result (executeSolTransfer demo_sdk demo_user demo_delegate demo_recipient
                  (BigNum (BN.of_Z (2 ^ 53))) demo_world).
Proof.
  repeat split; try (vm_compute; reflexivity).
  vm_compute. discriminate.
Qed.

(** * Further properties of the class *)

(** ** Amounts *)

Lemma of_number_accepted x b :
  BN.of_number x = Ok b ->
  BN.wf b = true
  /\ Z.abs (BN.value b) < 2 ^ 53
  /\ match JS.dyadic x with
     | Some (n, k) => BN.value b = Z.quot n (2 ^ k)
     | None => x = S754_nan /\ BN.value b = 0
     end.
Proof.
  intros E. destruct (JS.dyadic x) as [[n k] |] eqn:Hx.
  - destruct (of_number_finite x n k Hx) as [S1 S2]. cbv zeta in S1, S2.
    destruct (Z.lt_ge_cases (Z.abs (Z.quot n (2 ^ k))) (2 ^ 53)) as [Hlt | Hge].
    + destruct (S1 Hlt) as (b' & E' & Hwf & Hv).
      assert (b' = b) as -> by congruence.
      split; [exact Hwf |]. split; [rewrite Hv; exact Hlt | exact Hv].
    + rewrite (S2 Hge) in E. discriminate E.
  - destruct x as [s | s | | s m e]; simpl in Hx; try discriminate.
    + destruct s; vm_compute in E; discriminate E.
    + vm_compute in E. injection E as <-.
      split; [reflexivity |]. split; [reflexivity |]. split; reflexivity.
    + destruct (0 <=? e); discriminate Hx.
Qed.

(** Accepted instruction data is the layout of the integer part, which is
    in range. *)
Lemma data_accepted a t :
  amount_integer_part a = Some t ->
  (forall d, executeSolTransfer_instructionData a = Ok d ->
     0 <= t <= 2 ^ 64 - 1 /\ d = native_transfer_encoding t)
  /\ (forall d, executeTokenTransfer_instructionData a = Ok d ->
        0 <= t <= 2 ^ 64 - 1 /\ d = token_transfer_encoding t).
Proof.
  intros Ha.
  destruct (Z.lt_ge_cases t 0) as [Hneg | Hpos];
    [| destruct (Z.lt_ge_cases (2 ^ 64 - 1) t) as [Hbig | Hok]].
  - destruct (data_out_of_range a t Ha (or_introl Hneg)) as (e & _ & E1 & E2).
    split; intros d Hd; congruence.
  - destruct (data_out_of_range a t Ha (or_intror Hbig)) as (e & _ & E1 & E2).
    split; intros d Hd; congruence.
  - destruct (data_in_range a t Ha (conj Hpos Hok)) as [[E1 E2] | (E1 & E2 & _)];
      split; intros d Hd; try congruence; split; try lia; congruence.
Qed.

Lemma native_encoding_inj t1 t2 :
  0 <= t1 <= 2 ^ 64 - 1 -> 0 <= t2 <= 2 ^ 64 - 1 ->
  native_transfer_encoding t1 = native_transfer_encoding t2 -> t1 = t2.
Proof.
  intros H1 H2 E. apply (f_equal (fun d => Buffer.le_value (drop 4 d))) in E.
  destruct (native_layout t1) as (_ & _ & L1 & _).
  destruct (native_layout t2) as (_ & _ & L2 & _).
  rewrite L1, L2, !le_value_u64 in E by assumption. exact E.
Qed.

Lemma token_encoding_inj t1 t2 :
  0 <= t1 <= 2 ^ 64 - 1 -> 0 <= t2 <= 2 ^ 64 - 1 ->
  token_transfer_encoding t1 = token_transfer_encoding t2 -> t1 = t2.
Proof.
  intros H1 H2 E. apply (f_equal (fun d => Buffer.le_value (drop 1 d))) in E.
  destruct (token_layout t1) as (_ & _ & L1 & _).
  destruct (token_layout t2) as (_ & _ & L2 & _).
  rewrite L1, L2, !le_value_u64 in E by assumption. exact E.
Qed.

(** X1. Whatever [number] the constructor of bn.js accepts, the conversion
    [BigInt(bn.toString())] that the two transfer methods apply gives back
    exactly the value of the [BN]; that value is the integer part of the
    number (0 for NaN) and is below [2^53] in magnitude. *)
Theorem accepted_number_round_trips (x : JS.number) (b : BN.t) :
  to_BN (Number x) = Ok b ->
  JS.BigInt (BN.toString b) = Ok (BN.value b)
  /\ Z.abs (BN.value b) < 2 ^ 53
  /\ (forall t, amount_integer_part (Number x) = Some t -> BN.value b = t)
  /\ (x = S754_nan -> BN.value b = 0).
Proof.
  intros E. simpl in E. destruct (of_number_accepted x b E) as (Hwf & Hlt & Hval).
  split; [apply BigInt_toString; exact Hwf |]. split; [exact Hlt |].
  split.
  - intros t Ht. simpl in Ht. destruct (JS.dyadic x) as [[n k] |]; [| discriminate].
    congruence.
  - intros ->. simpl in Hval. apply Hval.
Qed.

(** ** What every composer method does *)

Lemma encode_bytes_inj ix (d1 d2 e : Buffer.t) :
  encode ix [ArgBytes d1] = Ok e -> encode ix [ArgBytes d2] = Ok e -> d1 = d2.
Proof.
  unfold encode. cbn [map concat borsh]. rewrite !app_nil_r.
  destruct (_ <? _)%nat; [discriminate |].
  destruct (_ <? _)%nat; [discriminate |].
  intros [= <-] [= E]. apply app_inv_head in E.
  apply (f_equal (drop 4)) in E. cbn [Buffer.le_bytes app drop] in E.
  rewrite !drop_0 in E. symmetry. exact E.
Qed.


Lemma encode_within ix args :
  (length (concat (map borsh args)) <= 1000)%nat ->
  encode ix args = Ok (discriminator ix ++ concat (map borsh args)).
Proof.
  intros Hle. unfold encode.
  destruct (Nat.ltb_spec 1000 (length (concat (map borsh args)))); [lia | reflexivity].
Qed.

Lemma pair_transaction (p : Program) name ix (k1 k2 : string) w1 s1 w2 s2
    (a b : PublicKey) args rest body :
  k1 <> k2 ->
  find_instruction (program_idl p) name = Some ix ->
  ix_accounts ix = [mkIdlAccount k1 w1 s1; mkIdlAccount k2 w2 s2] ->
  encode ix args = Ok body ->
  build_transaction p name args (<[k1 := a]> (<[k2 := b]> ∅)) rest
  = Ok (mkTransaction None None
          [ mkInstruction ([mkMeta a s1 w1; mkMeta b s2 w2] ++ rest)
              (program_programId p) body ]).
Proof.
  intros Hne Hfind Hacc Henc. unfold build_transaction. rewrite Hfind, Hacc.
  cbn [accountsArray acc_name signer writable].
  destruct (lookup_pair k1 k2 a b Hne) as [-> ->].
  cbn [rbind]. rewrite Henc. reflexivity.
Qed.

Lemma execute_payload_inj (p : Program) (p1 p2 : Buffer.t) ctx rest tx :
  build_transaction p "execute" [ArgBytes p1] ctx rest = Ok tx ->
  build_transaction p "execute" [ArgBytes p2] ctx rest = Ok tx ->
  p1 = p2.
Proof.
  intros E1 E2.
  destruct (build_transaction_fields _ _ _ _ _ _ E1)
    as (_ & _ & ix1 & ks1 & dd1 & F1 & _ & N1 & I1).
  destruct (build_transaction_fields _ _ _ _ _ _ E2)
    as (_ & _ & ix2 & ks2 & dd2 & F2 & _ & N2 & I2).
  rewrite F1 in F2. injection F2 as <-.
  rewrite I1 in I2. injection I2 as _ Edata. subst dd2.
  apply (encode_bytes_inj _ _ _ _ N1 N2).
Qed.

Section NonceSearch.
Context `{Externals}.

Lemma find_nonce_too_long nonce seeds pid :
  existsb (fun seed => (MAX_SEED_LENGTH <? length seed)%nat) seeds = true ->
  (0 < nonce)%nat ->
  find_nonce nonce seeds pid = Throw TypeError.
Proof.
  intros Hlong Hn. destruct nonce as [| n]; [lia |].
  cbn [find_nonce]. rewrite createProgramAddressSync_nonce, Hlong. reflexivity.
Qed.

Lemma find_nonce_throws nonce : forall seeds pid e,
  existsb (fun seed => (MAX_SEED_LENGTH <? length seed)%nat) seeds = false ->
  find_nonce nonce seeds pid = Throw e ->
  e = NoViableNonce
  /\ forall b, 1 <= b <= Z.of_nat nonce ->
       isOnCurve (sha256 (concat seeds ++ [b] ++ pid
                          ++ Buffer.from_string "ProgramDerivedAddress")) = true.
Proof.
  induction nonce as [| n IH]; intros seeds pid e Hlen.
  - cbn [find_nonce]. intros [= <-]. split; [reflexivity | intros b Hb; lia].
  - cbn [find_nonce]. rewrite createProgramAddressSync_nonce, Hlen. cbv zeta.
    destruct (isOnCurve (sha256 (concat seeds ++ [Z.of_nat (S n)] ++ _))) eqn:Hc;
      [| discriminate].
    cbn [instanceof_TypeError]. intros E.
    destruct (IH seeds pid e Hlen E) as [-> Hall]. split; [reflexivity |].
    intros b Hb. destruct (Z.eq_dec b (Z.of_nat (S n))) as [-> | Hne];
      [exact Hc | apply Hall; lia].
Qed.

Lemma find_nonce_exhausted nonce : forall seeds pid,
  existsb (fun seed => (MAX_SEED_LENGTH <? length seed)%nat) seeds = false ->
  (forall b, 1 <= b <= Z.of_nat nonce ->
     isOnCurve (sha256 (concat seeds ++ [b] ++ pid
                        ++ Buffer.from_string "ProgramDerivedAddress")) = true) ->
  find_nonce nonce seeds pid = Throw NoViableNonce.
Proof.
  induction nonce as [| n IH]; intros seeds pid Hlen Hall; [reflexivity |].
  cbn [find_nonce]. rewrite createProgramAddressSync_nonce, Hlen. cbv zeta.
  rewrite (Hall (Z.of_nat (S n))) by lia. cbn [instanceof_TypeError].
  apply IH; [exact Hlen |]. intros b Hb. apply Hall. lia.
Qed.

Lemma smart_seeds_fit owner :
  existsb (fun seed => (MAX_SEED_LENGTH <? length seed)%nat) (smart_seeds owner)
  = (32 <? length owner)%nat.
Proof. unfold smart_seeds. cbn [existsb]. rewrite orb_false_r. reflexivity. Qed.

End NonceSearch.

Section Coverage.
Context `{Externals}.

(** The result of every composer call: the address derivation for
    [seed_owner], then the instruction data where there is one, then the
    method builder. *)
Lemma compose_result this c w :
  result (compose this c w)
  = (pda <- findProgramAddressSync (smart_seeds (seed_owner this c))
              (program_programId (program this)) ;;
     match c with
     | Initialize o =>
         build_transaction (program this) "initialize" []
           (<["smartAccount" := fst pda]>
              (<["owner" := seed_owner this c]>
                 (<["systemProgram" := SystemProgram_programId]> ∅)))
           (call_remainingAccounts c (fst pda))
     | AddDelegate d _ =>
         build_transaction (program this) "addDelegate" [ArgPubkey d]
           (<["smartAccount" := fst pda]> (<["owner" := seed_owner this c]> ∅))
           (call_remainingAccounts c (fst pda))
     | RemoveDelegate d _ =>
         build_transaction (program this) "removeDelegate" [ArgPubkey d]
           (<["smartAccount" := fst pda]> (<["owner" := seed_owner this c]> ∅))
           (call_remainingAccounts c (fst pda))
     | Pause _ =>
         build_transaction (program this) "pause" []
           (<["smartAccount" := fst pda]> (<["owner" := seed_owner this c]> ∅))
           (call_remainingAccounts c (fst pda))
     | Unpause _ =>
         build_transaction (program this) "unpause" []
           (<["smartAccount" := fst pda]> (<["owner" := seed_owner this c]> ∅))
           (call_remainingAccounts c (fst pda))
     | ExecuteSolTransfer _ d _ a =>
         instructionData <- executeSolTransfer_instructionData a ;;
         build_transaction (program this) "execute" [ArgBytes instructionData]
           (<["smartAccount" := fst pda]> (<["delegate" := d]> ∅))
           (call_remainingAccounts c (fst pda))
     | ExecuteTokenTransfer _ d _ _ a _ =>
         instructionData <- executeTokenTransfer_instructionData a ;;
         build_transaction (program this) "execute" [ArgBytes instructionData]
           (<["smartAccount" := fst pda]> (<["delegate" := d]> ∅))
           (call_remainingAccounts c (fst pda))
     | ExecuteCustomInstruction _ d _ b _ =>
         build_transaction (program this) "execute" [ArgBytes b]
           (<["smartAccount" := fst pda]> (<["delegate" := d]> ∅))
           (call_remainingAccounts c (fst pda))
     end).
Proof.
  destruct c; cbn [compose seed_owner call_remainingAccounts].
  - rewrite initialize_run. reflexivity.
  - unfold addDelegate. rewrite by_owner_run. reflexivity.
  - unfold removeDelegate. rewrite by_owner_run. reflexivity.
  - unfold pause. rewrite by_owner_run. reflexivity.
  - unfold unpause. rewrite by_owner_run. reflexivity.
  - rewrite executeSolTransfer_run. reflexivity.
  - rewrite executeTokenTransfer_run. reflexivity.
  - rewrite executeCustomInstruction_run. reflexivity.
Qed.

(** X2. A [number] amount is transferred by its integer part: for every
    finite number whose truncation toward zero [t] satisfies
    [0 <= t < 2^53], [executeSolTransfer] and [executeTokenTransfer] return
    what they return for the [BN] of [t], and hand the layout of [t] to the
    method builder; the fraction is dropped silently. *)
Theorem fractional_amounts_are_truncated
    (this : SmartAccountSDK) (o d r f t : PublicKey) (u : option bool) (w : World)
    (x : JS.number) (n k : Z) :
  JS.dyadic x = Some (n, k) ->
  0 <= Z.quot n (2 ^ k) < 2 ^ 53 ->
  executeSolTransfer this o d r (Number x) w
  = executeSolTransfer this o d r (BigNum (BN.of_Z (Z.quot n (2 ^ k)))) w
  /\ executeTokenTransfer this o d f t (Number x) u w
     = executeTokenTransfer this o d f t (BigNum (BN.of_Z (Z.quot n (2 ^ k)))) u w
  /\ result (executeSolTransfer this o d r (Number x) w)
     = (pda <- findProgramAddressSync (smart_seeds o) (program_programId (program this)) ;;
        build_transaction (program this) "execute"
          [ArgBytes (native_transfer_encoding (Z.quot n (2 ^ k)))]
          (<["smartAccount" := fst pda]> (<["delegate" := d]> ∅))
          (call_remainingAccounts (ExecuteSolTransfer o d r (Number x)) (fst pda)))
  /\ result (executeTokenTransfer this o d f t (Number x) u w)
     = (pda <- findProgramAddressSync (smart_seeds o) (program_programId (program this)) ;;
        build_transaction (program this) "execute"
          [ArgBytes (token_transfer_encoding (Z.quot n (2 ^ k)))]
          (<["smartAccount" := fst pda]> (<["delegate" := d]> ∅))
          (call_remainingAccounts (ExecuteTokenTransfer o d f t (Number x) u) (fst pda))).
Proof.
  intros Hx Ht.
  assert (amount_integer_part (Number x) = Some (Z.quot n (2 ^ k))) as Ha
    by (simpl; rewrite Hx; reflexivity).
  destruct (data_in_range (Number x) _ Ha ltac:(lia)) as [[E1 E2] | (_ & _ & Hbig & _)];
    [| lia].
  destruct (of_Z_value (Z.quot n (2 ^ k))) as [Hwf Hval].
  destruct (data_of_BN_in_range _ _ Hwf Hval ltac:(lia)) as [B1 B2].
  split; [rewrite !executeSolTransfer_run, E1, B1; reflexivity |].
  split; [rewrite !executeTokenTransfer_run, E2, B2; reflexivity |].
  split.
  - rewrite executeSolTransfer_run, E1. reflexivity.
  - rewrite executeTokenTransfer_run, E2. reflexivity.
Qed.

(** X3. Two calls of a transfer method on one instance that differ only in
    the amount and both return a transaction return the same transaction
    exactly when the integer parts of the two amounts are equal: the
    transaction loses nothing of an accepted amount, and the representation
    ([number] or [BN]) leaves no trace in it. *)
Theorem instruction_data_determines_amount
    (this : SmartAccountSDK) (o d r f t : PublicKey) (u : option bool) (w : World)
    (a1 a2 : Amount) (t1 t2 : Z) :
  amount_integer_part a1 = Some t1 ->
  amount_integer_part a2 = Some t2 ->
  (forall tx1 tx2,
     result (executeSolTransfer this o d r a1 w) = Ok tx1 ->
     result (executeSolTransfer this o d r a2 w) = Ok tx2 ->
     (tx1 = tx2 <-> t1 = t2))
  /\ (forall tx1 tx2,
        result (executeTokenTransfer this o d f t a1 u w) = Ok tx1 ->
        result (executeTokenTransfer this o d f t a2 u w) = Ok tx2 ->
        (tx1 = tx2 <-> t1 = t2)).
Proof.
  intros H1 H2.
  destruct (data_accepted a1 t1 H1) as [S1 T1].
  destruct (data_accepted a2 t2 H2) as [S2 T2].
  split; intros tx1 tx2 E1 E2.
  - rewrite executeSolTransfer_run in E1, E2. unfold lift in E1, E2.
    cbn [result] in E1, E2.
    destruct (findProgramAddressSync _ _) as [pda | e0]; [| discriminate].
    cbn [rbind] in E1, E2.
    destruct (executeSolTransfer_instructionData a1) as [p1 |]; [| discriminate].
    destruct (executeSolTransfer_instructionData a2) as [p2 |]; [| discriminate].
    cbn [rbind] in E1, E2.
    destruct (S1 p1 eq_refl) as [R1 ->]. destruct (S2 p2 eq_refl) as [R2 ->].
    split.
    + intros <-. apply native_encoding_inj; try assumption.
      apply (execute_payload_inj _ _ _ _ _ _ E1 E2).
    + intros <-. congruence.
  - rewrite executeTokenTransfer_run in E1, E2. unfold lift in E1, E2.
    cbn [result] in E1, E2.
    destruct (findProgramAddressSync _ _) as [pda | e0]; [| discriminate].
    cbn [rbind] in E1, E2.
    destruct (executeTokenTransfer_instructionData a1) as [p1 |]; [| discriminate].
    destruct (executeTokenTransfer_instructionData a2) as [p2 |]; [| discriminate].
    cbn [rbind] in E1, E2.
    destruct (T1 p1 eq_refl) as [R1 ->]. destruct (T2 p2 eq_refl) as [R2 ->].
    split.
    + intros <-. apply token_encoding_inj; try assumption.
      apply (execute_payload_inj _ _ _ _ _ _ E1 E2).
    + intros <-. congruence.
Qed.

(** X4. Every composer method derives the smart-account address first: when
    the derivation for the owner the call addresses fails, the call fails
    with the same error, whatever its other arguments (also an amount that
    would be refused), leaves the world as it was and sends no request. *)
Theorem derivation_failure_comes_first
    (this : SmartAccountSDK) (c : ComposerCall) (w : World) (e : Error) :
  result (findSmartAccountPDA this (seed_owner this c) w) = Throw e ->
  compose this c w = lift (Throw e) w.
Proof.
  intros E. rewrite findSmartAccountPDA_run in E. unfold lift in E. cbn [result] in E.
  destruct (compose_lifts this c) as [r Hr]. rewrite Hr.
  pose proof (compose_result this c w) as R. rewrite Hr, E in R.
  unfold lift in R. cbn [result rbind] in R. rewrite R. reflexivity.
Qed.



Lemma compose_is_lift this c w :
  compose this c w = lift (result (compose this c w)) w.
Proof. destruct (compose_lifts this c) as [r Hr]. rewrite Hr. reflexivity. Qed.

(** X6. For [addDelegate], [removeDelegate], [pause] and [unpause], when
    the IDL schema of the method is the smart account followed by the owner:
    the transaction has one instruction whose accounts are the smart-account
    address of the owner and the owner, with the flags of the schema, and
    whose data is the discriminator of the method followed by the 32 bytes of
    the delegate ([addDelegate], [removeDelegate]) or by nothing ([pause],
    [unpause]).  An omitted owner is the [userPublicKey] of the instance,
    both as seed of the address and as account. *)
Theorem owner_methods_account_list
    (this : SmartAccountSDK) (c : ComposerCall) (name : string) (args : list IxArg)
    (o : option PublicKey) (w : World) (ix : IdlInstruction) (w1 s1 w2 s2 : bool) :
  owner_method c = Some (name, args, o) ->
  find_instruction (program_idl (program this)) name = Some ix ->
  ix_accounts ix = [mkIdlAccount "smartAccount" w1 s1; mkIdlAccount "owner" w2 s2] ->
  (length (concat (map borsh args)) <= 1000)%nat ->
  compose this c w
  = lift (pda <- findProgramAddressSync
                   (smart_seeds (default (userPublicKey this) o))
                   (program_programId (program this)) ;;
          Ok (mkTransaction None None
                [ mkInstruction
                    [ mkMeta (fst pda) s1 w1;
                      mkMeta (default (userPublicKey this) o) s2 w2 ]
                    (program_programId (program this))
                    (discriminator ix ++ concat (map borsh args)) ])) w.
Proof.
  intros Hc Hfind Hacc Hlen. rewrite compose_is_lift, compose_result. f_equal.
  pose proof (encode_within ix args Hlen) as Henc.
  destruct c; cbn [owner_method] in Hc; try discriminate Hc;
    injection Hc as <- <- <-; cbn [seed_owner call_remainingAccounts];
    destruct (findProgramAddressSync _ _) as [pda | e]; cbn [rbind];
      try reflexivity;
    rewrite (pair_transaction _ _ ix "smartAccount" "owner" w1 s1 w2 s2 _ _ _ _ _
               ltac:(discriminate) Hfind Hacc Henc);
    reflexivity.
Qed.

(** X7. [executeCustomInstruction], when the IDL lists the core pair of
    [execute]: the accounts are the core pair, then the target program as a
    read-only non-signer, then the caller's accounts in the caller's order
    with the caller's flags; the data is the discriminator, the length of
    the payload in 4 little-endian bytes and the payload unchanged.  This
    holds for the empty payload and the empty account list too. *)
Theorem executeCustomInstruction_account_list
    (this : SmartAccountSDK) (smartAccountOwner delegate targetProgram : PublicKey)
    (instructionData : Buffer.t) (remainingAccounts : list AccountMeta) (w : World)
    (ix : IdlInstruction) (w1 s1 w2 : bool) :
  find_instruction (program_idl (program this)) "execute" = Some ix ->
  ix_accounts ix = [mkIdlAccount "smartAccount" w1 s1; mkIdlAccount "delegate" w2 true] ->
  (length instructionData <= 996)%nat ->
  executeCustomInstruction this smartAccountOwner delegate targetProgram
    instructionData remainingAccounts w
  = lift (pda <- findProgramAddressSync (smart_seeds smartAccountOwner)
                   (program_programId (program this)) ;;
          Ok (mkTransaction None None
                [ mkInstruction
                    ([ mkMeta (fst pda) s1 w1; mkMeta delegate true w2 ]
                     ++ mkMeta targetProgram false false :: remainingAccounts)
                    (program_programId (program this))
                    (discriminator ix
                     ++ Buffer.le_bytes 4 (Z.of_nat (length instructionData))
                     ++ instructionData) ])) w.
Proof.
  intros Hfind Hacc Hlen. rewrite executeCustomInstruction_run. unfold lift. f_equal.
  destruct (findProgramAddressSync _ _) as [pda | e]; cbn [rbind]; [| reflexivity].
  apply (execute_transaction _ ix w1 s1 w2 _ _ _ (length instructionData));
    try assumption; reflexivity.
Qed.

(** X8. The two transfer methods are instances of
    [executeCustomInstruction]: [executeSolTransfer] composes what
    [executeCustomInstruction] composes for the system program as target, the
    native-transfer buffer as payload and the accounts [smart account
    (writable), recipient (writable)]; [executeTokenTransfer] what it
    composes for the chosen token program, the token-transfer buffer and the
    accounts [from (writable), to (writable), smart account (read-only)]. *)
Theorem transfers_are_custom_instructions
    (this : SmartAccountSDK) (o d r f t : PublicKey) (a : Amount)
    (u : option bool) (w : World) :
  result (executeSolTransfer this o d r a w)
  = (pda <- result (findSmartAccountPDA this o w) ;;
     payload <- executeSolTransfer_instructionData a ;;
     result (executeCustomInstruction this o d SystemProgram_programId payload
               [ mkMeta (fst pda) false true; mkMeta r false true ] w))
  /\ result (executeTokenTransfer this o d f t a u w)
     = (pda <- result (findSmartAccountPDA this o w) ;;
        payload <- executeTokenTransfer_instructionData a ;;
        result (executeCustomInstruction this o d
                  (if default false u then TOKEN_2022_PROGRAM_ID else TOKEN_PROGRAM_ID)
                  payload
                  [ mkMeta f false true; mkMeta t false true;
                    mkMeta (fst pda) false false ] w)).
Proof.
  rewrite executeSolTransfer_run, executeTokenTransfer_run, findSmartAccountPDA_run.
  unfold lift. cbn [result].
  split.
  - destruct (findProgramAddressSync (smart_seeds o) _) as [pda | e] eqn:Ep;
      cbn [rbind]; [| reflexivity].
    destruct (executeSolTransfer_instructionData a) as [payload | e];
      cbn [rbind]; [| reflexivity].
    rewrite executeCustomInstruction_run. unfold lift. cbn [result].
    rewrite Ep. reflexivity.
  - destruct (findProgramAddressSync (smart_seeds o) _) as [pda | e] eqn:Ep;
      cbn [rbind]; [| reflexivity].
    destruct (executeTokenTransfer_instructionData a) as [payload | e];
      cbn [rbind]; [| reflexivity].
    rewrite executeCustomInstruction_run. unfold lift. cbn [result].
    rewrite Ep. reflexivity.
Qed.

(** X9. In the transaction of a transfer, when the IDL lists the core pair
    of [execute] with the smart account as non-signer, the delegate is the
    only account marked as signer: the owner of the smart account does not
    sign, and neither does the smart account, the recipient or a token
    account. *)
Theorem delegate_is_the_only_signer
    (this : SmartAccountSDK) (c : ComposerCall) (o d r f t : PublicKey)
    (a : Amount) (u : option bool) (w : World)
    (ix : IdlInstruction) (w1 w2 : bool) (tx : Transaction) :
  c = ExecuteSolTransfer o d r a \/ c = ExecuteTokenTransfer o d f t a u ->
  find_instruction (program_idl (program this)) "execute" = Some ix ->
  ix_accounts ix = [mkIdlAccount "smartAccount" w1 false; mkIdlAccount "delegate" w2 true] ->
  result (compose this c w) = Ok tx ->
  exists i, instructions tx = [i]
            /\ List.filter isSigner (keys i) = [mkMeta d true w2].
Proof.
  intros Hc Hfind Hacc E. rewrite compose_result in E.
  destruct (findProgramAddressSync _ _) as [pda | e0]; [| discriminate].
  cbn [rbind] in E.
  assert (forall payload rest,
            List.filter isSigner rest = [] ->
            build_transaction (program this) "execute" [ArgBytes payload]
              (<["smartAccount" := fst pda]> (<["delegate" := d]> ∅)) rest = Ok tx ->
            exists i, instructions tx = [i]
                      /\ List.filter isSigner (keys i) = [mkMeta d true w2]) as Hb.
  { intros payload rest Hrest Eb.
    destruct (build_transaction_fields _ _ _ _ _ _ Eb)
      as (_ & _ & ix' & ks & dd & Hfind' & Hks & _ & Hi).
    rewrite Hfind in Hfind'. injection Hfind' as <-.
    rewrite Hacc in Hks. cbn [accountsArray acc_name signer writable] in Hks.
    destruct (lookup_pair "smartAccount" "delegate" (fst pda) d ltac:(discriminate))
      as [L1 L2].
    rewrite L1, L2 in Hks. cbn [rbind] in Hks. injection Hks as <-.
    eexists. split; [exact Hi |]. cbn [keys].
    rewrite List.filter_app, Hrest. reflexivity. }
  destruct Hc as [-> | ->]; cbn [call_remainingAccounts] in E.
  - destruct (executeSolTransfer_instructionData a) as [payload |]; [| discriminate].
    cbn [rbind] in E. eapply Hb; [| exact E]. reflexivity.
  - destruct (executeTokenTransfer_instructionData a) as [payload |]; [| discriminate].
    cbn [rbind] in E. eapply Hb; [| exact E]. reflexivity.
Qed.

(** X10. Two calls of [executeSolTransfer] on one instance, for the same
    owner and delegate, that return the same transaction have the same
    recipient and amounts with the same integer part: the transaction
    determines who is paid and how much. *)
Theorem transfer_transaction_determines_recipient_and_amount
    (this : SmartAccountSDK) (o d r1 r2 : PublicKey) (a1 a2 : Amount)
    (t1 t2 : Z) (w1 w2 : World) (tx : Transaction) :
  amount_integer_part a1 = Some t1 ->
  amount_integer_part a2 = Some t2 ->
  result (executeSolTransfer this o d r1 a1 w1) = Ok tx ->
  result (executeSolTransfer this o d r2 a2 w2) = Ok tx ->
  r1 = r2 /\ t1 = t2.
Proof.
  intros H1 H2 E1 E2. rewrite executeSolTransfer_run in E1, E2.
  unfold lift in E1, E2. cbn [result] in E1, E2.
  destruct (findProgramAddressSync _ _) as [pda | e0]; [| discriminate].
  cbn [rbind] in E1, E2.
  destruct (executeSolTransfer_instructionData a1) as [p1 |] eqn:D1; [| discriminate].
  destruct (executeSolTransfer_instructionData a2) as [p2 |] eqn:D2; [| discriminate].
  cbn [rbind] in E1, E2.
  destruct (build_transaction_fields _ _ _ _ _ _ E1)
    as (_ & _ & ix1 & ks1 & dd1 & F1 & K1 & N1 & I1).
  destruct (build_transaction_fields _ _ _ _ _ _ E2)
    as (_ & _ & ix2 & ks2 & dd2 & F2 & K2 & N2 & I2).
  rewrite F1 in F2. injection F2 as <-. rewrite K1 in K2. injection K2 as <-.
  rewrite I1 in I2. injection I2 as Ekeys Edata.
  apply app_inv_head in Ekeys. injection Ekeys as ->. subst dd2.
  pose proof (encode_bytes_inj _ _ _ _ N1 N2) as ->.
  split; [reflexivity |].
  destruct (data_accepted a1 t1 H1) as [S1 _]. destruct (data_accepted a2 t2 H2) as [S2 _].
  destruct (S1 _ D1) as [R1 Ep1]. destruct (S2 _ D2) as [R2 Ep2].
  apply native_encoding_inj; try assumption. congruence.
Qed.

(** X11. How the address derivation fails.  For an owner of at most 32
    bytes the only failure is "no viable nonce", and it happens exactly when
    the hash is on the curve for every bump from 255 down to 1 (bump 0 is
    never tried); an owner longer than 32 bytes is refused as an over-long
    seed.  An address that is returned is never on the curve. *)
Theorem derivation_failure_cases
    (this : SmartAccountSDK) (owner : PublicKey) (w : World) :
  let pid := program_programId (program this) in
  let r := result (findSmartAccountPDA this owner w) in
  ((length owner <= 32)%nat ->
   (r = Throw NoViableNonce <->
    forall b, 1 <= b <= 255 -> isOnCurve (sha256 (pda_preimage owner b pid)) = true)
   /\ (forall e, r = Throw e -> e = NoViableNonce))
  /\ ((32 < length owner)%nat -> r = Throw TypeError)
  /\ (forall addr bump, r = Ok (addr, bump) ->
        isOnCurve addr = false /\ bump <> 0).
Proof.
  intros pid r. subst r. rewrite findSmartAccountPDA_run. unfold lift. cbn [result].
  fold pid. unfold findProgramAddressSync.
  split; [| split].
  - intros Hlen.
    assert (existsb (fun seed => (MAX_SEED_LENGTH <? length seed)%nat)
              (smart_seeds owner) = false) as Hfit
      by (rewrite smart_seeds_fit; apply Nat.ltb_ge; exact Hlen).
    split; [split |].
    + intros E b Hb. rewrite <- smart_preimage.
      apply (find_nonce_throws 255 _ _ _ Hfit E). exact Hb.
    + intros Hall. apply find_nonce_exhausted; [exact Hfit |].
      intros b Hb. rewrite smart_preimage. apply Hall. exact Hb.
    + intros e E. apply (find_nonce_throws 255 _ _ _ Hfit E).
  - intros Hlong. apply find_nonce_too_long; [| lia].
    rewrite smart_seeds_fit. apply Nat.ltb_lt. exact Hlong.
  - intros addr bump E.
    destruct (find_nonce_found _ _ _ _ _ E) as (Hb & _ & Hoff & _).
    split; [exact Hoff | lia].
Qed.

(** X12. Two owners of the same length (every public key has 32 bytes)
    whose hashed inputs do not collide get different smart-account
    addresses from the same instance: the seeds are laid out so that equal
    inputs mean equal owners. *)
Theorem distinct_owners_distinct_addresses
    (this : SmartAccountSDK) (ownerA ownerB : PublicKey) (wA wB : World)
    (addrA addrB : PublicKey) (bumpA bumpB : Z) :
  let pid := program_programId (program this) in
  length ownerA = length ownerB ->
  (forall b1 b2,
     sha256 (pda_preimage ownerA b1 pid) = sha256 (pda_preimage ownerB b2 pid) ->
     pda_preimage ownerA b1 pid = pda_preimage ownerB b2 pid) ->
  ownerA <> ownerB ->
  result (findSmartAccountPDA this ownerA wA) = Ok (addrA, bumpA) ->
  result (findSmartAccountPDA this ownerB wB) = Ok (addrB, bumpB) ->
  addrA <> addrB.
Proof.
  intros pid Hlen Hfree Hne EA EB Eaddr. apply Hne.
  rewrite findSmartAccountPDA_run in EA, EB. unfold lift in EA, EB.
  cbn [result] in EA, EB. unfold findProgramAddressSync in EA, EB.
  destruct (find_nonce_found _ _ _ _ _ EA) as (_ & HA & _).
  destruct (find_nonce_found _ _ _ _ _ EB) as (_ & HB & _).
  cbv zeta in HA, HB. rewrite smart_preimage in HA, HB. fold pid in HA, HB.
  assert (pda_preimage ownerA bumpA pid = pda_preimage ownerB bumpB pid) as Epre
    by (apply Hfree; congruence).
  unfold pda_preimage in Epre. apply app_inv_head in Epre.
  apply app_inj_1 in Epre; [apply Epre | exact Hlen].
Qed.

End Coverage.

(** ** The further properties at concrete inputs *)

Lemma accepted_number_round_trips_witness :
  JS.BigInt (BN.toString (BN.mk false [1])) = Ok 1.
Proof.
  destruct (accepted_number_round_trips one_and_a_half (BN.mk false [1]) eq_refl)
    as (E & _).
  exact E.
Defined.

Lemma fractional_amounts_are_truncated_witness :
  executeSolTransfer demo_sdk demo_user demo_delegate demo_recipient
    (Number one_and_a_half) demo_world
  = executeSolTransfer demo_sdk demo_user demo_delegate demo_recipient
      (BigNum (BN.of_Z 1)) demo_world.
Proof.
  destruct (fractional_amounts_are_truncated demo_sdk demo_user demo_delegate
              demo_recipient demo_user demo_recipient None demo_world
              one_and_a_half 6755399441055744 52
              eq_refl ltac:(vm_compute; split; [discriminate | reflexivity]))
    as (E & _).
  exact E.
Defined.

Lemma instruction_data_determines_amount_witness :
  result (executeTokenTransfer demo_sdk demo_user demo_delegate demo_user
            demo_recipient (Number one_and_a_half) None demo_world)
  <> result (executeTokenTransfer demo_sdk demo_user demo_delegate demo_user
               demo_recipient (BigNum (BN.of_Z 2)) None demo_world).
Proof.
  intros Eq.
  destruct (result (executeTokenTransfer demo_sdk demo_user demo_delegate demo_user
                      demo_recipient (Number one_and_a_half) None demo_world))
    as [tx | e] eqn:E1.
  - symmetry in Eq.
    destruct (instruction_data_determines_amount demo_sdk demo_user demo_delegate
                demo_recipient demo_user demo_recipient None demo_world
                (Number one_and_a_half) (BigNum (BN.of_Z 2)) 1 2 eq_refl eq_refl)
      as [_ Htok].
    destruct (Htok tx tx E1 Eq) as [Hto _]. discriminate (Hto eq_refl).
  - vm_compute in E1. discriminate E1.
Defined.

Lemma derivation_failure_comes_first_witness :
  compose demo_sdk
    (ExecuteSolTransfer demo_long_key demo_delegate demo_recipient
       (BigNum (BN.of_Z (-1)))) demo_world
  = lift (Throw TypeError) demo_world.
Proof.
  apply derivation_failure_comes_first. reflexivity.
Defined.


Lemma owner_methods_account_list_witness :
  compose demo_sdk (Pause None) demo_world
  = lift (pda <- findProgramAddressSync (smart_seeds demo_user) demo_programId ;;
          Ok (mkTransaction None None
                [ mkInstruction
                    [ mkMeta (fst pda) false true; mkMeta demo_user true true ]
                    demo_programId (demo_disc "pause" ++ []) ])) demo_world.
Proof.
  apply (owner_methods_account_list demo_sdk (Pause None) "pause" [] None demo_world
           demo_pause true false true true).
  - reflexivity.
  - reflexivity.
  - reflexivity.
  - cbn. lia.
Defined.

Lemma executeCustomInstruction_account_list_witness :
  executeCustomInstruction demo_sdk demo_user demo_delegate demo_recipient [] []
    demo_world
  = lift (pda <- findProgramAddressSync (smart_seeds demo_user) demo_programId ;;
          Ok (mkTransaction None None
                [ mkInstruction
                    [ mkMeta (fst pda) false false;
                      mkMeta demo_delegate true false;
                      mkMeta demo_recipient false false ]
                    demo_programId (demo_disc "execute" ++ [0; 0; 0; 0]) ]))
      demo_world.
Proof.
  apply (executeCustomInstruction_account_list demo_sdk demo_user demo_delegate
           demo_recipient [] [] demo_world demo_execute false false false).
  - reflexivity.
  - reflexivity.
  - cbn. lia.
Defined.

Lemma delegate_is_the_only_signer_witness :
  match result (compose demo_sdk
                  (ExecuteTokenTransfer demo_user demo_delegate demo_user demo_recipient
                     (BigNum (BN.of_Z 5000000)) None) demo_world) with
  | Ok tx =>
      exists i, instructions tx = [i]
                /\ List.filter isSigner (keys i) = [mkMeta demo_delegate true false]
  | Throw _ => False
  end.
Proof.
  destruct (result (compose demo_sdk
                      (ExecuteTokenTransfer demo_user demo_delegate demo_user
                         demo_recipient (BigNum (BN.of_Z 5000000)) None) demo_world))
    as [tx | e] eqn:E.
  - apply (delegate_is_the_only_signer demo_sdk
             (ExecuteTokenTransfer demo_user demo_delegate demo_user demo_recipient
                (BigNum (BN.of_Z 5000000)) None)
             demo_user demo_delegate demo_recipient demo_user demo_recipient
             (BigNum (BN.of_Z 5000000)) None demo_world demo_execute false false tx).
    + right. reflexivity.
    + reflexivity.
    + reflexivity.
    + exact E.
  - vm_compute in E. discriminate E.
Defined.

Lemma transfer_transaction_determines_recipient_and_amount_witness :
  result (executeSolTransfer demo_sdk demo_user demo_delegate demo_recipient
            (Number one_and_a_half) demo_world)
  <> result (executeSolTransfer demo_sdk demo_user demo_delegate demo_recipient
               (BigNum (BN.of_Z 2)) demo_world).
Proof.
  intros Eq.
  destruct (result (executeSolTransfer demo_sdk demo_user demo_delegate demo_recipient
                      (Number one_and_a_half) demo_world)) as [tx | e] eqn:E1.
  - symmetry in Eq.
    destruct (transfer_transaction_determines_recipient_and_amount demo_sdk demo_user
                demo_delegate demo_recipient demo_recipient (Number one_and_a_half)
                (BigNum (BN.of_Z 2)) 1 2 demo_world demo_world tx
                eq_refl eq_refl E1 Eq) as [_ Habs].
    discriminate Habs.
  - vm_compute in E1. discriminate E1.
Defined.

Lemma derivation_failure_cases_witness :
  result (findSmartAccountPDA demo_sdk demo_long_key demo_world) = Throw TypeError
  /\ result (findSmartAccountPDA (H := on_curve_externals) demo_sdk demo_user demo_world)
     = Throw NoViableNonce.
Proof.
  split.
  - destruct (derivation_failure_cases demo_sdk demo_long_key demo_world)
      as (_ & Hlong & _).
    apply Hlong. vm_compute. lia.
  - destruct (derivation_failure_cases (H := on_curve_externals) demo_sdk demo_user
                demo_world) as (Hfit & _).
    destruct (Hfit ltac:(vm_compute; lia)) as [Hiff _].
    apply Hiff. intros b Hb. reflexivity.
Defined.

Lemma distinct_owners_distinct_addresses_witness :
  result (findSmartAccountPDA (H := plain_externals) demo_sdk demo_user demo_world)
  <> result (findSmartAccountPDA (H := plain_externals) demo_sdk demo_delegate demo_world).
Proof.
  intros Eq.
  destruct (result (findSmartAccountPDA (H := plain_externals) demo_sdk demo_user
                      demo_world)) as [[addr bump] | e] eqn:EA.
  - symmetry in Eq.
    apply (distinct_owners_distinct_addresses (H := plain_externals) demo_sdk
             demo_user demo_delegate demo_world demo_world addr addr bump bump).
    + reflexivity.
    + intros b1 b2 Hsame. exact Hsame.
    + intros Hx. vm_compute in Hx. discriminate Hx.
    + exact EA.
    + exact Eq.
    + reflexivity.
  - vm_compute in EA. discriminate EA.
Defined.
